(** * MTG life counter: the reconciliation loop of [code.py]

    A shallow embedding of the CircuitPython program [code.py] (class
    [Player], the module-level set-up and the body of [while True]) and the
    properties of its specification.

    Conventions of the embedding.
    - Python integers are [Z]; [%] with a positive divisor is [Z.modulo].
    - Python lists indexed by slot are [list]s read with [!!]; a store
      [l[n] = v] out of range raises [IndexError], modelled by [None].
    - [f'{a}: {b}'] is string concatenation with the decimal rendering
      [pretty] of the integer.
    - Python floats are IEEE binary64 numbers, Rocq's primitive [float]s:
      [time.monotonic()] readings, [next_color] and [next_color_step] are
      [float]s, added with [PrimFloat.add] and compared with
      [PrimFloat.ltb]. The loop body reads the clock twice, and both
      readings are inputs of a tick.
    - Hardware reads (encoder positions, switch values) are inputs of a
      tick; writes to the matrix, the helper pixel, the blue LED and the
      display are recorded in an event log, newest first. *)

From stdpp Require Import base list strings pretty.
From Stdlib Require Import ZArith Lia.
From Stdlib Require Import PrimFloat.

Local Open Scope Z_scope.

(** ** class Player *)

(** [label.Label(terminalio.FONT, text=..., color=..., x=..., y=...)] *)
Record Label := mkLabel {
  lbl_text : string;
  lbl_color : Z;
  lbl_x : Z;
  lbl_y : Z
}.

Record Player := mkPlayer {
  _name : string;
  _health : Z;
  _color : list Z;
  _text_area : Label
}.

(** [f'{self._name}: {self._health}'] *)
Definition health_text (name : string) (health : Z) : string :=
  name +:+ ": " +:+ pretty health.

(** [f'{self._name}: Out!'] *)
Definition out_text (name : string) : string :=
  name +:+ ": Out!".

Module Player.

(** [__init__(self, name, color, position)] *)
Definition __init__ (name : string) (color : list Z) (position : Z) : Player :=
  {| _name := name;
     _health := 40;
     _color := color;
     _text_area := mkLabel (health_text name 40) 0xFFFFFF 0 position |}.

Definition name (self : Player) : string := _name self.
Definition health (self : Player) : Z := _health self.
Definition color (self : Player) : list Z := _color self.
Definition text_area (self : Player) : Label := _text_area self.

(** [@text_area.setter]: [self._text_area.text = value] *)
Definition set_text_area (self : Player) (value : string) : Player :=
  {| _name := _name self;
     _health := _health self;
     _color := _color self;
     _text_area :=
       mkLabel value (lbl_color (_text_area self))
               (lbl_x (_text_area self)) (lbl_y (_text_area self)) |}.

Definition get_health_string (self : Player) : string :=
  health_text (_name self) (_health self).

Definition update_health (self : Player) : Player :=
  if bool_decide (_health self > 0)
  then set_text_area self (health_text (_name self) (_health self))
  else set_text_area self (out_text (_name self)).

Definition store_health (self : Player) (value : Z) : Player :=
  {| _name := _name self;
     _health := value;
     _color := _color self;
     _text_area := _text_area self |}.

(** [@health.setter] *)
Definition set_health (self : Player) (value : Z) : Player :=
  update_health (store_health self value).

(** The methods return the new health next to the mutated object. *)
Definition increment_health (self : Player) : Player * Z :=
  let self' := update_health (store_health self (_health self + 1)) in
  (self', _health self').

Definition decrement_health (self : Player) : Player * Z :=
  let self' := update_health (store_health self (_health self - 1)) in
  (self', _health self').

End Player.

(** The text shown on the display for a player. *)
Definition shown_text (p : Player) : string := lbl_text (_text_area p).

(** ** Module-level state *)

Inductive Event :=
| EvSetupMessage (s : string)      (* matrix.setup_message(s, ...) *)
| EvShowMessage (c : Z * Z * Z)    (* matrix.show_message(color=[r,g,b], ...) *)
| EvHelperPixel (c : Z * Z * Z)    (* helper.pixel[0] = (r, g, b) *)
| EvBlueLed (b : bool)             (* helper.blue_led = b *)
| EvRefresh.                       (* display.refresh() *)

Record Globals := mkGlobals {
  players : list Player;
  last_positions : list Z;
  colors : list Z;
  pixels : list Z;
  rgb : Z * Z * Z;
  color_index : Z;
  next_color : float;
  blue_led : bool;
  events : list Event
}.

Definition with_players (v : list Player) (g : Globals) : Globals :=
  mkGlobals v (last_positions g) (colors g) (pixels g) (rgb g)
            (color_index g) (next_color g) (blue_led g) (events g).
Definition with_last_positions (v : list Z) (g : Globals) : Globals :=
  mkGlobals (players g) v (colors g) (pixels g) (rgb g)
            (color_index g) (next_color g) (blue_led g) (events g).
Definition with_colors (v : list Z) (g : Globals) : Globals :=
  mkGlobals (players g) (last_positions g) v (pixels g) (rgb g)
            (color_index g) (next_color g) (blue_led g) (events g).
Definition with_pixels (v : list Z) (g : Globals) : Globals :=
  mkGlobals (players g) (last_positions g) (colors g) v (rgb g)
            (color_index g) (next_color g) (blue_led g) (events g).
Definition emit (e : Event) (g : Globals) : Globals :=
  mkGlobals (players g) (last_positions g) (colors g) (pixels g) (rgb g)
            (color_index g) (next_color g) (blue_led g) (e :: events g).

(** [l[n] = v]: [IndexError] when [n] is out of range. *)
Definition list_store {A} (l : list A) (n : nat) (v : A) : option (list A) :=
  if bool_decide (n < length l)%nat then Some (<[n:=v]> l) else None.

(** The float that the literal [0.01] denotes. *)
Definition float_0_01 : float := 0x1.47ae147ae147bp-7%float.

(** [next_color_step = 0.01] *)
Definition next_color_step : float := float_0_01.

(** What the hardware answers during one pass of the loop body. *)
Record Reading := mkReading {
  monotonic_1 : float;       (* time.monotonic() in the gate's test *)
  monotonic_2 : float;       (* time.monotonic() stored in next_color *)
  positions : list Z;        (* [encoder.position for encoder in encoders] *)
  switch_detent : list bool; (* switches[n].value in the detent branch *)
  switch_reset : list bool   (* switches[n].value in the reset test *)
}.

Section Loop.

(** The colour wheels of the board libraries. *)
Variable rgb_color_wheel : Z → Z * Z * Z.   (* helper.rgb_color_wheel *)
Variable colorwheel : Z → Z.                (* rainbowio.colorwheel *)

(** Lines 144-151: the time-gated colour advance. *)
Definition color_gate (inp : Reading) (g : Globals) : Globals :=
  if PrimFloat.ltb (next_color g + next_color_step)%float (monotonic_1 inp)
  then
    let ci := color_index g + 1 in
    let c := rgb_color_wheel ci in
    let g1 :=
      mkGlobals (players g) (last_positions g) (colors g) (pixels g) c
                ci (monotonic_2 inp) (blue_led g)
                (EvHelperPixel c :: events g) in
    if bool_decide (ci `mod` 100 = 0) then
      mkGlobals (players g1) (last_positions g1) (colors g1) (pixels g1)
                (rgb g1) (color_index g1) (next_color g1)
                (negb (blue_led g1))
                (EvBlueLed (negb (blue_led g1)) :: events g1)
    else g1
  else g.

(** Lines 158-167: the detent branch of slot [n]. *)
Definition detent_branch (n : nat) (rotary_pos : Z) (inp : Reading)
    (g : Globals) : option Globals :=
  last ← last_positions g !! n;
  if bool_decide (rotary_pos ≠ last) then
    g2 ← (sw ← switch_detent inp !! n;
          if sw : bool then
            g1 ← (if bool_decide (rotary_pos > last) then
                    c ← colors g !! n;
                    cs ← list_store (colors g) n (c + 8);
                    p ← players g !! n;
                    Some (with_players
                            (<[n:=(Player.increment_health p).1]> (players g))
                            (with_colors cs g))
                  else
                    c ← colors g !! n;
                    cs ← list_store (colors g) n (c - 8);
                    p ← players g !! n;
                    Some (with_players
                            (<[n:=(Player.decrement_health p).1]> (players g))
                            (with_colors cs g)));
            c ← colors g1 !! n;
            cs ← list_store (colors g1) n ((c + 256) `mod` 256);
            Some (with_colors cs g1)
          else Some g);
    lp ← list_store (last_positions g2) n rotary_pos;
    Some (with_last_positions lp g2)
  else Some g.

(** Lines 171-176: the reset test of slot [n]. *)
Definition reset_branch (n : nat) (inp : Reading) (g : Globals)
    : option Globals :=
  sw ← switch_reset inp !! n;
  if negb sw then
    px ← list_store (pixels g) n 0xFFFFFF;
    p ← players g !! n;
    Some (emit (EvSetupMessage " Life Reset! ")
            (with_players (<[n:=Player.set_health p 40]> (players g))
               (with_pixels px g)))
  else
    c ← colors g !! n;
    px ← list_store (pixels g) n (colorwheel c);
    Some (with_pixels px g).

(** The body of [for n, rotary_pos in enumerate(positions)]. *)
Definition slot_body (n : nat) (rotary_pos : Z) (inp : Reading)
    (g : Globals) : option Globals :=
  g1 ← detent_branch n rotary_pos inp g;
  reset_branch n inp g1.

Fixpoint slots_loop (n : nat) (ps : list Z) (inp : Reading) (g : Globals)
    : option Globals :=
  match ps with
  | [] => Some g
  | rotary_pos :: rest =>
      g1 ← slot_body n rotary_pos inp g;
      slots_loop (S n) rest inp g1
  end.

(** One pass of the body of [while True]. *)
Definition tick (inp : Reading) (g : Globals) : option Globals :=
  let g1 := color_gate inp g in
  let g2 := emit (EvShowMessage (rgb g1)) g1 in
  g3 ← slots_loop 0 (positions inp) inp g2;
  Some (emit EvRefresh g3).

(** Several passes, one reading each. *)
Fixpoint run (inps : list Reading) (g : Globals) : option Globals :=
  match inps with
  | [] => Some g
  | inp :: rest => g1 ← tick inp g; run rest g1
  end.

End Loop.

(** The state when the loop is entered (lines 86-140). *)
Definition init_globals (led : bool) : Globals :=
  {| players :=
       [ Player.__init__ "Player 1" [0xff; 0x00; 0x00] 8;
         Player.__init__ "Player 2" [0x00; 0xff; 0x00] 18;
         Player.__init__ "Player 3" [0xff; 0x00; 0xff] 28;
         Player.__init__ "Player 4" [0x00; 0xff; 0xff] 38 ];
     last_positions := [0; 0; 0; 0];
     colors := [0; 0; 0; 0];
     pixels := [0; 0; 0; 0];
     rgb := (0, 0, 0);
     color_index := 0;
     next_color := float_0_01;
     blue_led := led;
     events := [EvSetupMessage " Start! "] |}.

Definition healths (g : Globals) : list Z := _health <$> players g.

(** ** Auxiliary definitions for the statements *)

(** The set-up makes four encoders, switches, pixels, players, positions
    and colours. *)
Definition four_slots (g : Globals) : Prop :=
  length (players g) = 4%nat ∧ length (last_positions g) = 4%nat
  ∧ length (colors g) = 4%nat ∧ length (pixels g) = 4%nat.

Definition four_switches (inp : Reading) : Prop :=
  length (switch_detent inp) = 4%nat ∧ length (switch_reset inp) = 4%nat.

Definition four_reads (inp : Reading) : Prop :=
  length (positions inp) = 4%nat ∧ four_switches inp.

(** What slot [k] of the state holds. *)
Definition view (k : nat) (g : Globals)
    : option Player * option Z * option Z * option Z :=
  (players g !! k, last_positions g !! k, colors g !! k, pixels g !! k).

(** How often the log writes [helper.blue_led]. *)
Fixpoint blue_toggles (evs : list Event) : nat :=
  match evs with
  | [] => 0
  | EvBlueLed _ :: rest => S (blue_toggles rest)
  | _ :: rest => blue_toggles rest
  end.

(** How often the log writes a colour to [helper.pixel[0]]. *)
Fixpoint emitted_colors (evs : list Event) : nat :=
  match evs with
  | [] => 0
  | EvHelperPixel _ :: rest => S (emitted_colors rest)
  | _ :: rest => emitted_colors rest
  end.

(** Every reading of [inps] finds the clock more than one step beyond the
    value stored at the previous firing ([t] before the first): each pass
    is one elapsed quantum. *)
Fixpoint quanta_elapse (t : float) (inps : list Reading) : bool :=
  match inps with
  | [] => true
  | inp :: rest =>
      PrimFloat.ltb (t + next_color_step)%float (monotonic_1 inp)
      && quanta_elapse (monotonic_2 inp) rest
  end.

(** The part of the state that the slots own. *)
Definition slots_of (g : Globals)
    : list Player * list Z * list Z * list Z :=
  (players g, last_positions g, colors g, pixels g).

(** Two readings that differ in the clock at most. *)
Definition same_reads (i1 i2 : Reading) : Prop :=
  positions i1 = positions i2 ∧ switch_detent i1 = switch_detent i2
  ∧ switch_reset i1 = switch_reset i2.

(** A reading in which both reads of every switch agree. *)
Definition steady (clk : float * float) (ps : list Z) (sw : list bool)
    : Reading :=
  mkReading clk.1 clk.2 ps sw sw.

(** The scenario of the specification: three forward detents on slot 0
    with no switch held, two passes with the switch of slot 1 held, one
    backward detent on slot 2 with its switch held. [clk] gives the clock
    readings of each pass. *)
Definition scenario (clk : nat → float * float) : list Reading :=
  [ steady (clk 0%nat) [1; 0; 0; 0] [true; true; true; true];
    steady (clk 1%nat) [2; 0; 0; 0] [true; true; true; true];
    steady (clk 2%nat) [3; 0; 0; 0] [true; true; true; true];
    steady (clk 3%nat) [3; 0; 0; 0] [true; false; true; true];
    steady (clk 4%nat) [3; 0; 0; 0] [true; false; true; true];
    steady (clk 5%nat) [3; 0; -1; 0] [true; true; false; true] ].

(** Constant colour wheels and sample readings, to run the loop on
    concrete inputs: [quanta k] is [k] passes, an eighth of a second
    apart, in which nothing moves and no switch is held. *)
Definition flat_rgb_wheel : Z → Z * Z * Z := λ _, (0, 0, 0).
Definition flat_wheel : Z → Z := λ _, 0.

Fixpoint float_of_nat (n : nat) : float :=
  match n with
  | O => 0%float
  | S k => (float_of_nat k + 1)%float
  end.

(** Clock readings an eighth of a second apart, for sample runs. *)
Definition paced (i : nat) : float * float :=
  ((float_of_nat i + 1) / 8, (float_of_nat i + 1) / 8)%float.

Definition quantum (i : nat) : Reading :=
  steady (paced i) [0; 0; 0; 0] [true; true; true; true].

Definition quanta (k : nat) : list Reading := quantum <$> seq 0 k.

(** The part of the state that no slot owns. *)
Definition ambient (g : Globals)
    : Z * Z * Z * Z * float * bool * nat * nat :=
  (rgb g, color_index g, next_color g, blue_led g,
   blue_toggles (events g), emitted_colors (events g)).

(** Summary of the detent branch on the player and colour of a slot:
    [sw] is the switch value read in the branch. *)
Definition adjusts (pos last : Z) (sw : bool) : bool :=
  bool_decide (pos ≠ last) && sw.

Definition detent_player (pos last : Z) (sw : bool) (p : Player) : Player :=
  if adjusts pos last sw then
    if bool_decide (pos > last)
    then (Player.increment_health p).1 else (Player.decrement_health p).1
  else p.

Definition detent_color (pos last : Z) (sw : bool) (c : Z) : Z :=
  if adjusts pos last sw then
    ((if bool_decide (pos > last) then c + 8 else c - 8) + 256) `mod` 256
  else c.

(** Summary of the reset test: [sw] is the switch value read there. *)
Definition reset_player (sw : bool) (p : Player) : Player :=
  if sw then p else Player.set_health p 40.

(** Slot [k] before ([g]) and after ([g']) its pass of the loop body. *)
Definition slot_post (colorwheel : Z → Z) (k : nat) (pos : Z) (inp : Reading)
    (g g' : Globals) : Prop :=
  ∃ p last c sw1 sw2,
    players g !! k = Some p ∧ last_positions g !! k = Some last
    ∧ colors g !! k = Some c
    ∧ switch_detent inp !! k = Some sw1 ∧ switch_reset inp !! k = Some sw2
    ∧ players g' !! k = Some (reset_player sw2 (detent_player pos last sw1 p))
    ∧ last_positions g' !! k = Some pos
    ∧ colors g' !! k = Some (detent_color pos last sw1 c)
    ∧ pixels g' !! k
      = Some (if sw2 then colorwheel (detent_color pos last sw1 c)
              else 0xFFFFFF).

(** What no method of [Player] assigns: the name, the colour and the
    label's colour and place. *)
Definition static_part (p : Player) : string * list Z * Z * Z * Z :=
  (_name p, _color p, lbl_color (_text_area p), lbl_x (_text_area p),
   lbl_y (_text_area p)).

(** The text of the label is the one [update_health] computes for the
    stored health. *)
Definition text_current (p : Player) : Prop :=
  shown_text p
  = if bool_decide (_health p > 0)
    then health_text (_name p) (_health p) else out_text (_name p).

(** A colour offset as the loop leaves it: on the wheel and a multiple of
    the step of 8. *)
Definition on_wheel (c : Z) : Prop := 0 ≤ c < 256 ∧ c `mod` 8 = 0.

(** How many switches a list of switch values shows as held. *)
Fixpoint held_count (sws : list bool) : nat :=
  match sws with
  | [] => 0
  | sw :: rest => ((if sw then 0 else 1) + held_count rest)%nat
  end.

(** Slot [n] of every reading: the reset test does not read the switch as
    held. *)
Fixpoint never_held (n : nat) (inps : list Reading) : bool :=
  match inps with
  | [] => true
  | inp :: rest =>
      bool_decide (switch_reset inp !! n = Some true) && never_held n rest
  end.

(** Slot [n] of every reading: both reads of the switch are [True] and the
    position is at most one detent from the one before it ([last] before
    the first reading). *)
Fixpoint single_detents (n : nat) (last : Z) (inps : list Reading) : bool :=
  match inps with
  | [] => true
  | inp :: rest =>
      match positions inp !! n with
      | Some pos =>
          bool_decide (last - 1 ≤ pos ≤ last + 1)
          && bool_decide (switch_detent inp !! n = Some true)
          && bool_decide (switch_reset inp !! n = Some true)
          && single_detents n pos rest
      | None => false
      end
  end.

(** [k] calls of [decrement_health] on the same object. *)
Definition decrement_times (k : nat) (p : Player) : Player :=
  Nat.iter k (λ q, (Player.decrement_health q).1) p.

(** Decimal digits, to tell the numeric text from ["Out!"]. *)
Definition is_digit (a : Stdlib.Strings.Ascii.ascii) : bool :=
  bool_decide (48 ≤ Stdlib.Strings.Ascii.nat_of_ascii a ≤ 57)%nat.

Fixpoint digits_only (s : string) : bool :=
  match s with
  | EmptyString => true
  | String a s' => is_digit a && digits_only s'
  end.

(** * Properties *)

(** Case analysis on every test and every list read of a goal. *)
Ltac split_reads :=
  repeat (simpl;
    match goal with
    | |- context [bool_decide ?P] => destruct (bool_decide P)
    | |- context [mbind _ (?l !! ?n)] => destruct (l !! n)
    | |- context [if ?b then _ else _] => destruct b
    end); simpl; try done.

(** ** Decimal rendering of integers *)

Lemma pretty_N_char_digit (x : N) : is_digit (pretty_N_char x) = true.
Proof. unfold pretty_N_char. by repeat case_match. Qed.

Lemma pretty_N_go_digits (x : N) (s : string) :
  digits_only s = true → digits_only (pretty_N_go x s) = true.
Proof.
  revert s. induction (N.lt_wf_0 x) as [x _ IH]; intros s Hs.
  destruct (decide (x = 0)%N) as [->|Hx].
  - by rewrite pretty_N_go_0.
  - rewrite pretty_N_go_step by lia.
    apply IH; [apply N.div_lt; lia|].
    simpl. by rewrite pretty_N_char_digit, Hs.
Qed.

Lemma pretty_pos_digits (q : positive) : digits_only (pretty (Z.pos q)) = true.
Proof.
  unfold pretty, pretty_Z, pretty, pretty_positive, pretty, pretty_N.
  case_decide; [done|]. by apply pretty_N_go_digits.
Qed.

(** No integer is rendered as ["Out!"]. *)
Lemma pretty_Z_not_out (v : Z) : pretty v ≠ "Out!".
Proof.
  destruct v as [|q|q].
  - done.
  - intros H. pose proof (pretty_pos_digits q) as Hd. by rewrite H in Hd.
  - unfold pretty, pretty_Z. by intros [=].
Qed.

Lemma health_text_not_out (name : string) (v : Z) :
  health_text name v ≠ out_text name.
Proof.
  unfold health_text, out_text. intros H.
  apply (inj (String.app name)) in H.
  apply (inj (String.app ": ")) in H.
  by apply pretty_Z_not_out in H.
Qed.

(** ** The displayed text *)

Lemma shown_text_set_text_area (p : Player) (s : string) :
  shown_text (Player.set_text_area p s) = s.
Proof. done. Qed.

Lemma shown_text_update_health (p : Player) :
  shown_text (Player.update_health p)
  = if bool_decide (_health p > 0)
    then health_text (_name p) (_health p) else out_text (_name p).
Proof. unfold Player.update_health. by case_bool_decide. Qed.

Lemma update_health_fields (p : Player) :
  _name (Player.update_health p) = _name p
  ∧ _health (Player.update_health p) = _health p
  ∧ _color (Player.update_health p) = _color p.
Proof. unfold Player.update_health. by case_bool_decide. Qed.

(** C1. After [update_health], the text on the display is ["<name>: Out!"]
    exactly when the health is at most 0, and ["<name>: <health>"] exactly
    when it is positive, whatever the integer. *)
Theorem update_health_shown_text (p : Player) :
  (shown_text (Player.update_health p) = _name p +:+ ": Out!"
   ↔ _health p ≤ 0)
  ∧ (shown_text (Player.update_health p)
     = _name p +:+ ": " +:+ pretty (_health p)
     ↔ 0 < _health p).
Proof.
  rewrite shown_text_update_health.
  pose proof (health_text_not_out (_name p) (_health p)) as Hne.
  unfold health_text, out_text in *.
  case_bool_decide; split; split; intros; try lia; try done.
Qed.

(** The three mutators end in [update_health], so the same text rule holds
    for the value they store. *)
Lemma set_health_shown_text (p : Player) (v : Z) :
  shown_text (Player.set_health p v)
  = if bool_decide (v ≤ 0) then out_text (_name p) else health_text (_name p) v.
Proof.
  unfold Player.set_health. rewrite shown_text_update_health. simpl.
  repeat case_bool_decide; done || lia.
Qed.

Lemma increment_health_spec (p : Player) :
  Player.increment_health p
  = (Player.set_health p (_health p + 1), _health p + 1).
Proof.
  unfold Player.increment_health, Player.set_health. f_equal.
  by rewrite (proj1 (proj2 (update_health_fields _))).
Qed.

Lemma decrement_health_spec (p : Player) :
  Player.decrement_health p
  = (Player.set_health p (_health p - 1), _health p - 1).
Proof.
  unfold Player.decrement_health, Player.set_health. f_equal.
  by rewrite (proj1 (proj2 (update_health_fields _))).
Qed.

Lemma set_health_fields (p : Player) (v : Z) :
  _name (Player.set_health p v) = _name p
  ∧ _health (Player.set_health p v) = v
  ∧ _color (Player.set_health p v) = _color p.
Proof.
  unfold Player.set_health.
  by destruct (update_health_fields (Player.store_health p v)) as (-> & -> & ->).
Qed.

(** C9. [get_health_string] is always the numeric form, never the
    ["Out!"] form; it agrees with the displayed text exactly when the
    health is positive. *)
Theorem get_health_string_numeric (p : Player) :
  Player.get_health_string p = _name p +:+ ": " +:+ pretty (_health p)
  ∧ Player.get_health_string p ≠ _name p +:+ ": Out!"
  ∧ (shown_text (Player.update_health p)
     = Player.get_health_string (Player.update_health p)
     ↔ 0 < _health p).
Proof.
  split; [done|]. split; [apply health_text_not_out|].
  rewrite shown_text_update_health. unfold Player.get_health_string.
  destruct (update_health_fields p) as (-> & -> & _).
  case_bool_decide; split; intros H'; try done; try lia.
  symmetry in H'. by apply health_text_not_out in H'.
Qed.

Section LoopFacts.

Variable rgb_color_wheel : Z → Z * Z * Z.
Variable colorwheel : Z → Z.

Lemma slot_post_view k pos inp g0 g0' g g' :
  view k g0 = view k g → view k g0' = view k g' →
  slot_post colorwheel k pos inp g0 g0' → slot_post colorwheel k pos inp g g'.
Proof.
  unfold view, slot_post. intros [= <- <- <- _] [= <- <- <- <-]. done.
Qed.

Lemma list_store_Some {A} (l : list A) (n : nat) (v : A) :
  (n < length l)%nat → list_store l n v = Some (<[n:=v]> l).
Proof. intros. unfold list_store. by case_bool_decide. Qed.

Lemma lookup_four {A} (l : list A) (n : nat) :
  length l = 4%nat → (n < 4)%nat → is_Some (l !! n).
Proof. intros Hl Hn. apply lookup_lt_is_Some. lia. Qed.

(** The detent branch, on a state with four slots. *)
Lemma detent_branch_spec n pos inp g p last c sw :
  four_slots g →
  players g !! n = Some p → last_positions g !! n = Some last →
  colors g !! n = Some c → switch_detent inp !! n = Some sw →
  detent_branch n pos inp g
  = Some (mkGlobals
            (<[n:=detent_player pos last sw p]> (players g))
            (<[n:=pos]> (last_positions g))
            (<[n:=detent_color pos last sw c]> (colors g))
            (pixels g) (rgb g) (color_index g) (next_color g)
            (blue_led g) (events g)).
Proof.
  intros (Hp & Hl & Hc & Hx) Ep El Ec Es.
  assert (n < 4)%nat as Hn by (apply lookup_lt_Some in Ep; lia).
  unfold detent_branch, detent_player, detent_color, adjusts.
  destruct g as [ps ls cs xs ? ? ? ? ?]; simpl in *.
  rewrite El; simpl. rewrite Es; simpl. rewrite Ec; simpl. rewrite Ep; simpl.
  rewrite !list_store_Some by lia. simpl.
  destruct sw; repeat case_bool_decide; simpl;
    rewrite ?list_lookup_insert_eq by lia; simpl;
    rewrite ?list_store_Some by (rewrite ?length_insert; lia); simpl;
    unfold with_last_positions, with_colors, with_players; simpl;
    rewrite ?list_insert_insert_eq;
    rewrite ?list_store_Some by lia; simpl;
    subst; rewrite ?(list_insert_id ps), ?(list_insert_id cs),
      ?(list_insert_id ls) by done; done.
Qed.

(** The reset test, on a state with four slots. *)
Lemma reset_branch_spec n inp g p c sw :
  four_slots g →
  players g !! n = Some p → colors g !! n = Some c →
  switch_reset inp !! n = Some sw →
  reset_branch colorwheel n inp g
  = Some (mkGlobals
            (<[n:=reset_player sw p]> (players g))
            (last_positions g) (colors g)
            (<[n:=if sw then colorwheel c else 0xFFFFFF]> (pixels g))
            (rgb g) (color_index g) (next_color g) (blue_led g)
            (if sw then events g
             else EvSetupMessage " Life Reset! " :: events g)).
Proof.
  intros (Hp & Hl & Hc & Hx) Ep Ec Es.
  assert (n < 4)%nat as Hn by (apply lookup_lt_Some in Ep; lia).
  unfold reset_branch, reset_player. rewrite Es. simpl.
  destruct g as [ps ls cs xs ? ? ? ? ?]; simpl in *.
  destruct sw; simpl.
  - rewrite Ec. simpl. rewrite list_store_Some by lia. simpl.
    unfold with_pixels; simpl. by rewrite (list_insert_id ps).
  - rewrite list_store_Some by lia. simpl. by rewrite Ep.
Qed.

Lemma slot_body_spec n pos inp g :
  four_slots g → four_switches inp → (n < 4)%nat →
  ∃ g', slot_body colorwheel n pos inp g = Some g'
        ∧ four_slots g' ∧ ambient g' = ambient g
        ∧ slot_post colorwheel n pos inp g g'
        ∧ ∀ k, k ≠ n → view k g' = view k g.
Proof.
  intros Hg [Hd Hr] Hn. pose proof Hg as (Hp & Hl & Hc & Hx).
  destruct (lookup_four (players g) n Hp Hn) as [p Ep].
  destruct (lookup_four (last_positions g) n Hl Hn) as [last El].
  destruct (lookup_four (colors g) n Hc Hn) as [c Ec].
  destruct (lookup_four (pixels g) n Hx Hn) as [x Ex].
  destruct (lookup_four (switch_detent inp) n Hd Hn) as [sw1 E1].
  destruct (lookup_four (switch_reset inp) n Hr Hn) as [sw2 E2].
  unfold slot_body.
  rewrite (detent_branch_spec n pos inp g p last c sw1) by done. simpl.
  erewrite reset_branch_spec; [| |simpl..|done].
  - eexists. split; [done|]. simpl.
    refine (conj _ (conj _ (conj _ _))).
    + unfold four_slots. simpl. by rewrite !length_insert.
    + unfold ambient. simpl. by destruct sw2.
    + exists p, last, c, sw1, sw2. simpl.
      rewrite list_insert_insert_eq.
      by rewrite !list_lookup_insert_eq by lia.
    + intros k Hk. unfold view. simpl.
      rewrite list_insert_insert_eq.
      by rewrite !list_lookup_insert_ne by done.
  - unfold four_slots. simpl. by rewrite !length_insert.
  - apply list_lookup_insert_eq. lia.
  - apply list_lookup_insert_eq. lia.
Qed.

(** The loop over the slots from [n] on, when [n + length ps] is 4. *)
Lemma slots_loop_spec inp ps : ∀ n g,
  four_slots g → four_switches inp → (n + length ps = 4)%nat →
  ∃ g', slots_loop colorwheel n ps inp g = Some g'
        ∧ four_slots g' ∧ ambient g' = ambient g
        ∧ (∀ k, (k < n)%nat → view k g' = view k g)
        ∧ ∀ k pos, ps !! k = Some pos → slot_post colorwheel (n + k) pos inp g g'.
Proof.
  induction ps as [|pos rest IH]; intros n g Hg Hsw Hlen; simpl in *.
  - exists g. repeat split; try done; apply Hg.
  - destruct (slot_body_spec n pos inp g Hg Hsw) as
      (g1 & -> & Hg1 & Ha1 & Hpost1 & Hother1); [lia|]. simpl.
    destruct (IH (S n) g1 Hg1 Hsw) as (g' & -> & Hg' & Ha' & Hlow & Hpost);
      [lia|].
    exists g'. refine (conj eq_refl (conj Hg' (conj _ (conj _ _)))).
    + by rewrite Ha'.
    + intros k Hk. rewrite Hlow by lia. apply Hother1. lia.
    + intros [|k] pos' Hk; simpl in Hk.
      * injection Hk as ->. rewrite Nat.add_0_r.
        eapply slot_post_view; [done| |exact Hpost1].
        symmetry. apply Hlow. lia.
      * replace (n + S k)%nat with (S n + k)%nat by lia.
        eapply slot_post_view; [|done|by apply Hpost].
        apply Hother1. lia.
Qed.

Lemma color_gate_slots inp g :
  players (color_gate rgb_color_wheel inp g) = players g
  ∧ last_positions (color_gate rgb_color_wheel inp g) = last_positions g
  ∧ colors (color_gate rgb_color_wheel inp g) = colors g
  ∧ pixels (color_gate rgb_color_wheel inp g) = pixels g.
Proof.
  unfold color_gate. destruct (PrimFloat.ltb _ _); [|done].
  by case_bool_decide.
Qed.

(** One pass of the loop body on the set-up with four slots: it does not
    raise, the ambient part is what the colour gate leaves, and every
    slot is as its own pass leaves it. *)
Lemma tick_spec inp g :
  four_slots g → four_reads inp →
  ∃ g', tick rgb_color_wheel colorwheel inp g = Some g'
        ∧ four_slots g'
        ∧ ambient g' = ambient (color_gate rgb_color_wheel inp g)
        ∧ ∀ k pos, positions inp !! k = Some pos → slot_post colorwheel k pos inp g g'.
Proof.
  intros Hg [Hlen Hsw]. unfold tick.
  destruct (color_gate_slots inp g) as (Ep & El & Ec & Ex).
  set (g1 := color_gate rgb_color_wheel inp g) in *.
  set (g2 := emit (EvShowMessage (rgb g1)) g1).
  assert (four_slots g2) as Hg2.
  { unfold four_slots, g2. simpl. rewrite Ep, El, Ec, Ex. apply Hg. }
  destruct (slots_loop_spec inp (positions inp) 0 g2 Hg2 Hsw) as
    (g3 & -> & Hg3 & Ha3 & _ & Hpost); [lia|]. simpl.
  eexists. split; [done|]. refine (conj _ (conj _ _)).
  - apply Hg3.
  - unfold ambient in *. simpl. by rewrite Ha3.
  - intros k pos Hk. specialize (Hpost k pos Hk). simpl in Hpost.
    eapply slot_post_view; [| |exact Hpost].
    + unfold view, g2. simpl. by rewrite Ep, El, Ec, Ex.
    + done.
Qed.

(** C2. On every tick whose reset test reads the switch of a slot as
    held ([False]), the tick ends with that slot's counter at exactly 40
    and its text at ["<name>: 40"], whatever the counter was, whatever
    the encoder position is and whatever the detent branch read. *)
Theorem held_switch_forces_40 (inp : Reading) (g : Globals) (n : nat) :
  four_slots g → four_reads inp →
  switch_reset inp !! n = Some false →
  ∃ g' p p',
    tick rgb_color_wheel colorwheel inp g = Some g'
    ∧ players g !! n = Some p ∧ players g' !! n = Some p'
    ∧ _health p' = 40
    ∧ _name p' = _name p
    ∧ shown_text p' = _name p +:+ ": 40".
Proof.
  intros Hg Hinp Hsw.
  destruct (tick_spec inp g Hg Hinp) as (g' & Ht & _ & _ & Hpost).
  assert (n < 4)%nat as Hn.
  { apply lookup_lt_Some in Hsw. destruct Hinp as (_ & _ & ?). lia. }
  destruct (lookup_four (positions inp) n (proj1 Hinp) Hn) as [pos Epos].
  destruct (Hpost n pos Epos) as
    (p & last & c & sw1 & sw2 & Ep & _ & _ & _ & E2 & Ep' & _).
  rewrite Hsw in E2. injection E2 as <-. simpl in Ep'.
  exists g', p, (Player.set_health (detent_player pos last sw1 p) 40).
  destruct (set_health_fields (detent_player pos last sw1 p) 40)
    as (Hname & Hhealth & _).
  assert (_name (detent_player pos last sw1 p) = _name p) as Hnm.
  { unfold detent_player.
    rewrite increment_health_spec, decrement_health_spec. simpl.
    repeat case_match; try done; apply set_health_fields. }
  refine (conj Ht (conj Ep (conj Ep' (conj Hhealth (conj _ _))))).
  - by rewrite Hname.
  - by rewrite set_health_shown_text, Hnm.
Qed.

Lemma wrap_256 (c : Z) : (c + 256) `mod` 256 = c `mod` 256.
Proof.
  replace (c + 256) with (c + 1 * 256) by lia. by rewrite Z_mod_plus_full.
Qed.

Lemma slot_in_range (inp : Reading) (n : nat) (pos : Z) :
  four_reads inp → positions inp !! n = Some pos → (n < 4)%nat.
Proof. intros [Hl _] H. apply lookup_lt_Some in H. lia. Qed.

(** The adjust gesture of one slot, within a whole tick. *)
Lemma detent_adjusts_aux (inp : Reading) (g : Globals) (n : nat)
    (pos last c : Z) (p : Player) :
  four_slots g → four_reads inp →
  positions inp !! n = Some pos → last_positions g !! n = Some last →
  pos ≠ last →
  switch_detent inp !! n = Some true → switch_reset inp !! n = Some true →
  players g !! n = Some p → colors g !! n = Some c →
  ∃ g' p',
    tick rgb_color_wheel colorwheel inp g = Some g'
    ∧ players g' !! n = Some p'
    ∧ _health p'
      = (if bool_decide (pos > last) then _health p + 1 else _health p - 1)
    ∧ colors g' !! n
      = Some (if bool_decide (pos > last)
              then (c + 8) `mod` 256 else (c - 8) `mod` 256).
Proof.
  intros Hg Hinp Epos El Hne E1 E2 Ep Ec.
  destruct (tick_spec inp g Hg Hinp) as (g' & Ht & _ & _ & Hpost).
  destruct (Hpost n pos Epos) as
    (p0 & last0 & c0 & sw1 & sw2 & ? & ? & ? & ? & ? & Ep' & _ & Ec' & _).
  simplify_eq. simpl in Ep'.
  exists g', (detent_player pos last true p).
  refine (conj Ht (conj Ep' (conj _ _))).
  - unfold detent_player, adjusts.
    rewrite increment_health_spec, decrement_health_spec. simpl.
    rewrite bool_decide_true by done. simpl.
    case_bool_decide; apply set_health_fields.
  - rewrite Ec'. unfold detent_color, adjusts.
    rewrite bool_decide_true by done. simpl.
    rewrite wrap_256. by case_bool_decide.
Qed.

(** C3. A detent transition of a slot on a tick whose two reads of the
    slot's switch are both [True] changes the slot's counter by exactly
    +1 when the new position is greater than the last seen one and by
    exactly -1 otherwise, and moves the slot's colour offset by +8,
    respectively -8, modulo 256. *)
Theorem detent_adjusts_counter (inp : Reading) (g : Globals) (n : nat)
    (pos last c : Z) (p : Player) :
  four_slots g → four_reads inp →
  positions inp !! n = Some pos → last_positions g !! n = Some last →
  pos ≠ last →
  switch_detent inp !! n = Some true → switch_reset inp !! n = Some true →
  players g !! n = Some p → colors g !! n = Some c →
  ∃ g' p',
    tick rgb_color_wheel colorwheel inp g = Some g'
    ∧ players g' !! n = Some p'
    ∧ _health p'
      = (if bool_decide (pos > last) then _health p + 1 else _health p - 1)
    ∧ colors g' !! n
      = Some (if bool_decide (pos > last)
              then (c + 8) `mod` 256 else (c - 8) `mod` 256).
Proof. apply detent_adjusts_aux. Qed.

(** C4. After every tick, whichever branches a slot went through,
    [last_positions] of the slot is the position polled in that tick; a
    following tick that polls the same position and does not read the
    switch as held leaves the slot's counter and colour as they are, so
    the transition is consumed once. *)
Theorem last_position_recorded (inp : Reading) (g : Globals) (n : nat)
    (pos : Z) :
  four_slots g → four_reads inp →
  positions inp !! n = Some pos →
  ∃ g',
    tick rgb_color_wheel colorwheel inp g = Some g'
    ∧ last_positions g' !! n = Some pos
    ∧ ∀ inp2, four_reads inp2 → positions inp2 !! n = Some pos →
        switch_reset inp2 !! n = Some true →
        ∃ g'', tick rgb_color_wheel colorwheel inp2 g' = Some g''
               ∧ last_positions g'' !! n = Some pos
               ∧ players g'' !! n = players g' !! n
               ∧ colors g'' !! n = colors g' !! n.
Proof.
  intros Hg Hinp Epos.
  destruct (tick_spec inp g Hg Hinp) as (g' & Ht & Hg' & _ & Hpost).
  destruct (Hpost n pos Epos) as
    (p & last & c & sw1 & sw2 & _ & _ & _ & _ & _ & Ep' & El' & Ec' & _).
  exists g'. refine (conj Ht (conj El' _)).
  intros inp2 Hinp2 Epos2 Esw2.
  destruct (tick_spec inp2 g' Hg' Hinp2) as (g'' & Ht2 & _ & _ & Hpost2).
  destruct (Hpost2 n pos Epos2) as
    (p2 & last2 & c2 & s1 & s2 & ? & ? & ? & ? & ? & Ep2 & El2 & Ec2 & _).
  simplify_eq.
  exists g''. refine (conj Ht2 (conj El2 (conj _ _))).
  - rewrite Ep2, Ep'. unfold detent_player at 1, adjusts.
    by rewrite bool_decide_false by naive_solver.
  - rewrite Ec2, Ec'. unfold detent_color at 1, adjusts.
    by rewrite bool_decide_false by naive_solver.
Qed.

(** C5. A detent transition of a slot on a tick whose detent branch reads
    the switch as held ([False]) only records the position: the detent
    branch changes nothing but [last_positions], and after the tick the
    colour offset is unchanged and the counter is either untouched or,
    when the reset test reads the switch as held, reset to 40. *)
Theorem held_detent_only_records (inp : Reading) (g : Globals) (n : nat)
    (pos last c : Z) (p : Player) (sw2 : bool) :
  four_slots g → four_reads inp →
  positions inp !! n = Some pos → last_positions g !! n = Some last →
  pos ≠ last →
  switch_detent inp !! n = Some false → switch_reset inp !! n = Some sw2 →
  players g !! n = Some p → colors g !! n = Some c →
  detent_branch n pos inp g
    = Some (with_last_positions (<[n:=pos]> (last_positions g)) g)
  ∧ ∃ g',
      tick rgb_color_wheel colorwheel inp g = Some g'
      ∧ last_positions g' !! n = Some pos
      ∧ colors g' !! n = Some c
      ∧ players g' !! n
        = Some (if sw2 then p else Player.set_health p 40).
Proof.
  intros Hg Hinp Epos El Hne E1 E2 Ep Ec. split.
  - rewrite (detent_branch_spec n pos inp g p last c false) by done.
    unfold detent_player, detent_color, adjusts, with_last_positions.
    rewrite andb_false_r.
    by rewrite (list_insert_id (players g)), (list_insert_id (colors g)).
  - destruct (tick_spec inp g Hg Hinp) as (g' & Ht & _ & _ & Hpost).
    destruct (Hpost n pos Epos) as
      (p0 & last0 & c0 & s1 & s2 & ? & ? & ? & ? & ? & Ep' & El' & Ec' & _).
    simplify_eq.
    exists g'. refine (conj Ht (conj El' (conj _ _))).
    + rewrite Ec'. unfold detent_color, adjusts. by rewrite andb_false_r.
    + rewrite Ep'. unfold detent_player, adjusts. by rewrite andb_false_r.
Qed.

Lemma init_four_slots (led : bool) : four_slots (init_globals led).
Proof. done. Qed.

Lemma init_health (led : bool) (n : nat) (p : Player) :
  players (init_globals led) !! n = Some p → _health p = 40.
Proof.
  do 4 (destruct n as [|n]; [by intros [= <-]|]). done.
Qed.

(** C10. [last_positions] starts at 0 for every slot, so on the first
    tick an encoder that reports a position other than 0 is taken for a
    detent transition: with the switch read as not held the counter
    leaves 40 by one step, to 41 for a positive position and to 39 for a
    negative one. *)
Theorem startup_position_is_a_detent (led : bool) (inp : Reading)
    (n : nat) (pos : Z) :
  four_reads inp →
  positions inp !! n = Some pos → pos ≠ 0 →
  switch_detent inp !! n = Some true → switch_reset inp !! n = Some true →
  last_positions (init_globals led) !! n = Some 0
  ∧ healths (init_globals led) !! n = Some 40
  ∧ ∃ g',
      tick rgb_color_wheel colorwheel inp (init_globals led) = Some g'
      ∧ healths g' !! n = Some (if bool_decide (pos > 0) then 41 else 39).
Proof.
  intros Hinp Epos Hne E1 E2.
  pose proof (slot_in_range inp n pos Hinp Epos) as Hn.
  pose proof (init_four_slots led) as Hg.
  destruct (lookup_four (players (init_globals led)) n (proj1 Hg) Hn)
    as [p Ep].
  destruct (lookup_four (colors (init_globals led)) n
              (proj1 (proj2 (proj2 Hg))) Hn) as [c Ec].
  assert (last_positions (init_globals led) !! n = Some 0) as El.
  { simpl. do 4 (destruct n as [|n]; [done|]). lia. }
  pose proof (init_health led n p Ep) as Hp.
  split; [done|]. split.
  { unfold healths. rewrite list_lookup_fmap, Ep. simpl. by rewrite Hp. }
  destruct (detent_adjusts_aux inp (init_globals led) n pos 0 c p)
    as (g' & p' & Ht & Ep' & Hh & _); try done.
  exists g'. split; [done|].
  unfold healths. rewrite list_lookup_fmap, Ep'. simpl.
  rewrite Hh, Hp. by case_bool_decide.
Qed.

(** *** The colour gate *)

Lemma color_gate_idle inp g :
  PrimFloat.ltb (next_color g + next_color_step)%float (monotonic_1 inp)
  = false →
  color_gate rgb_color_wheel inp g = g.
Proof. intros H. unfold color_gate. by rewrite H. Qed.

Lemma color_gate_fired inp g :
  PrimFloat.ltb (next_color g + next_color_step)%float (monotonic_1 inp)
  = true →
  let g' := color_gate rgb_color_wheel inp g in
  color_index g' = color_index g + 1
  ∧ rgb g' = rgb_color_wheel (color_index g + 1)
  ∧ next_color g' = monotonic_2 inp
  ∧ emitted_colors (events g') = S (emitted_colors (events g))
  ∧ blue_toggles (events g')
    = ((if bool_decide ((color_index g + 1) `mod` 100 = 0)%Z then 1 else 0)
       + blue_toggles (events g))%nat.
Proof.
  intros H g'. subst g'. unfold color_gate.
  rewrite H. by case_bool_decide.
Qed.

Lemma color_gate_fired_led inp g :
  PrimFloat.ltb (next_color g + next_color_step)%float (monotonic_1 inp)
  = true →
  blue_led (color_gate rgb_color_wheel inp g)
  = Nat.iter (if bool_decide ((color_index g + 1) `mod` 100 = 0) then 1
              else 0) negb (blue_led g).
Proof.
  intros H. unfold color_gate. rewrite H. by case_bool_decide.
Qed.

(** The rounding of the sum decides the test: a reading of 0.07 s is
    beyond a firing at 0.06 s plus the step, since the sum of the floats
    of [0.06] and [0.01] is below the float of [0.07]. *)
Lemma gate_test_rounds :
  PrimFloat.ltb (0x1.eb851eb851eb8p-5 + next_color_step)%float
                0x1.1eb851eb851ecp-4%float = true.
Proof. reflexivity. Qed.

(** C7. One evaluation of the colour gate writes at most one colour and
    advances [color_index] by at most one. Evaluated again while the test
    of the gate is false, that is while the clock is not beyond
    [next_color] plus the step, it changes nothing: no colour is written,
    [r, g, b] and [color_index] stay. A second evaluation at the same
    clock value is such a one when that value is not beyond the reading
    stored at the firing plus the step. *)
Theorem color_gate_once (inp inp' : Reading) (g : Globals) :
  PrimFloat.ltb
    (next_color (color_gate rgb_color_wheel inp g) + next_color_step)%float
    (monotonic_1 inp') = false
  ∨ (monotonic_1 inp' = monotonic_1 inp
     ∧ PrimFloat.ltb (monotonic_2 inp + next_color_step)%float
                     (monotonic_1 inp) = false) →
  (emitted_colors (events (color_gate rgb_color_wheel inp g))
   ≤ S (emitted_colors (events g)))%nat
  ∧ color_index g ≤ color_index (color_gate rgb_color_wheel inp g)
    ≤ color_index g + 1
  ∧ color_gate rgb_color_wheel inp' (color_gate rgb_color_wheel inp g)
    = color_gate rgb_color_wheel inp g
  ∧ rgb (color_gate rgb_color_wheel inp' (color_gate rgb_color_wheel inp g))
    = rgb (color_gate rgb_color_wheel inp g).
Proof.
  intros Hnow.
  assert (color_gate rgb_color_wheel inp' (color_gate rgb_color_wheel inp g)
          = color_gate rgb_color_wheel inp g) as Hidle.
  { apply color_gate_idle. destruct Hnow as [Hbelow|[Hsame Hbelow]]; [done|].
    rewrite Hsame.
    destruct (PrimFloat.ltb (next_color g + next_color_step)%float
                (monotonic_1 inp)) eqn:Hfire.
    - destruct (color_gate_fired inp g Hfire) as (_ & _ & -> & _). done.
    - by rewrite (color_gate_idle inp g Hfire). }
  rewrite Hidle.
  destruct (PrimFloat.ltb (next_color g + next_color_step)%float
              (monotonic_1 inp)) eqn:Hfire.
  - destruct (color_gate_fired inp g Hfire) as (Hci & _ & _ & Hem & _).
    rewrite Hci, Hem. repeat split; lia.
  - rewrite (color_gate_idle inp g Hfire). repeat split; lia.
Qed.

(** *** Runs in which every pass fires the gate *)

Lemma next_index_div (ci : Z) :
  (ci + 1) / 100 - ci / 100
  = if bool_decide ((ci + 1) `mod` 100 = 0) then 1 else 0.
Proof. case_bool_decide; Z.div_mod_to_equations; lia. Qed.

Lemma quanta_elapse_take (k : nat) (inps : list Reading) : ∀ t,
  quanta_elapse t inps = true → quanta_elapse t (take k inps) = true.
Proof.
  revert k. induction inps as [|inp rest IH]; intros [|k] t; simpl; try done.
  intros [H1 H2]%andb_true_iff. rewrite H1. simpl. by apply IH.
Qed.

Lemma run_quanta (inps : list Reading) : ∀ g,
  four_slots g → Forall four_reads inps →
  quanta_elapse (next_color g) inps = true →
  ∃ g', run rgb_color_wheel colorwheel inps g = Some g'
        ∧ four_slots g'
        ∧ color_index g' = color_index g + Z.of_nat (length inps)
        ∧ Z.of_nat (blue_toggles (events g'))
          = Z.of_nat (blue_toggles (events g))
            + ((color_index g + Z.of_nat (length inps)) / 100
               - color_index g / 100)
        ∧ blue_led g'
          = Nat.iter (blue_toggles (events g') - blue_toggles (events g))
                     negb (blue_led g).
Proof.
  induction inps as [|inp rest IH]; intros g Hg Hall Hq; simpl in *.
  - exists g. rewrite Z.add_0_r, Nat.sub_diag.
    repeat split; try apply Hg; lia.
  - apply andb_true_iff in Hq as [Hfire Hq].
    apply Forall_cons in Hall as [Hinp Hall].
    destruct (tick_spec inp g Hg Hinp) as (g1 & -> & Hg1 & Ha & _). simpl.
    destruct (color_gate_fired inp g Hfire) as (Hci & _ & Hnc & _ & Hbt).
    pose proof (color_gate_fired_led inp g Hfire) as Hled.
    unfold ambient in Ha. injection Ha as _ Eci Enc Eled Ebt _.
    rewrite Hnc in Enc. rewrite Hci in Eci. rewrite Hbt in Ebt.
    rewrite Hled in Eled. rewrite <- Enc in Hq.
    destruct (IH g1 Hg1 Hall Hq) as (g' & -> & Hg' & Hci' & Hbt' & Hled').
    exists g'. refine (conj eq_refl (conj Hg' (conj _ (conj _ _)))).
    + lia.
    + rewrite Hbt', Ebt, Eci. pose proof (next_index_div (color_index g)).
      replace (color_index g + Z.of_nat (S (length rest)))
        with (color_index g + 1 + Z.of_nat (length rest)) by lia.
      case_bool_decide; lia.
    + rewrite Hled', Eled, <- Nat.iter_add. f_equal.
      assert (blue_toggles (events g1) ≤ blue_toggles (events g'))%nat.
      { assert (0 ≤ (color_index g1 + Z.of_nat (length rest)) / 100
                    - color_index g1 / 100); [|lia].
        apply Zle_minus_le_0, Z.div_le_mono; lia. }
      rewrite Ebt. case_bool_decide; lia.
Qed.

(** C8. From [color_index = 0], 1000 passes that each fire the colour
    gate leave [color_index] at 1000 and have written the blue LED
    exactly 10 times, each write negating it, so that it ends in the state
    it started in; after the first [k] of them it has been written, and
    negated, [k / 100] times, that is once at each index divisible by
    100. *)
Theorem blue_led_ten_toggles (inps : list Reading) (g : Globals) :
  four_slots g → Forall four_reads inps →
  color_index g = 0 → length inps = 1000%nat →
  quanta_elapse (next_color g) inps = true →
  ∃ g',
    run rgb_color_wheel colorwheel inps g = Some g'
    ∧ color_index g' = 1000
    ∧ blue_toggles (events g') = (blue_toggles (events g) + 10)%nat
    ∧ blue_led g' = Nat.iter 10 negb (blue_led g)
    ∧ blue_led g' = blue_led g
    ∧ ∀ k, (k ≤ 1000)%nat →
        ∃ gk, run rgb_color_wheel colorwheel (take k inps) g = Some gk
              ∧ color_index gk = Z.of_nat k
              ∧ blue_toggles (events gk)
                = (blue_toggles (events g) + k `div` 100)%nat
              ∧ blue_led gk = Nat.iter (k `div` 100) negb (blue_led g).
Proof.
  intros Hg Hall Hci Hlen Hq.
  destruct (run_quanta inps g Hg Hall Hq)
    as (g' & Hr & _ & Hci' & Hbt & Hled).
  exists g'. rewrite Hci, Hlen in *.
  change ((0 + Z.of_nat 1000) / 100 - 0 / 100) with 10 in Hbt.
  assert (blue_toggles (events g') = (blue_toggles (events g) + 10)%nat)
    as Hten by lia.
  rewrite Hten in Hled.
  replace (blue_toggles (events g) + 10 - blue_toggles (events g))%nat
    with 10%nat in Hled by lia.
  refine (conj Hr (conj _ (conj Hten (conj Hled (conj _ _))))).
  - lia.
  - rewrite Hled. by destruct (blue_led g).
  - intros k Hk.
    destruct (run_quanta (take k inps) g Hg)
      as (gk & Hrk & _ & Hcik & Hbk & Hledk).
    { by apply Forall_take. }
    { by apply quanta_elapse_take. }
    rewrite length_take, Hlen, Hci in *.
    replace (k `min` 1000)%nat with k in * by lia.
    assert (blue_toggles (events gk)
            = (blue_toggles (events g) + k `div` 100)%nat) as Hdiv.
    { apply Nat2Z.inj. rewrite Hbk, Nat2Z.inj_add, Nat2Z.inj_div.
      change (Z.of_nat 100) with 100. change (0 / 100) with 0.
      rewrite Z.add_0_l. lia. }
    exists gk. refine (conj Hrk (conj _ (conj Hdiv _))); [lia|].
    rewrite Hledk, Hdiv. f_equal. lia.
Qed.

(** *** The slots do not depend on the clock or on the ambient state *)

Lemma detent_branch_slots n pos i1 i2 g1 g2 :
  switch_detent i1 = switch_detent i2 → slots_of g1 = slots_of g2 →
  slots_of <$> detent_branch n pos i1 g1
  = slots_of <$> detent_branch n pos i2 g2.
Proof.
  destruct g1, g2. unfold slots_of. simpl. intros Hsw [= -> -> -> ->].
  unfold detent_branch, list_store. rewrite Hsw. split_reads.
Qed.

Lemma reset_branch_slots n i1 i2 g1 g2 :
  switch_reset i1 = switch_reset i2 → slots_of g1 = slots_of g2 →
  slots_of <$> reset_branch colorwheel n i1 g1
  = slots_of <$> reset_branch colorwheel n i2 g2.
Proof.
  destruct g1, g2. unfold slots_of. simpl. intros Hsw [= -> -> -> ->].
  unfold reset_branch, list_store. rewrite Hsw. split_reads.
Qed.

Lemma bind_slots (f1 f2 k1 k2 : Globals → option Globals) g1 g2 :
  (∀ a b, slots_of a = slots_of b → slots_of <$> f1 a = slots_of <$> f2 b) →
  (∀ a b, slots_of a = slots_of b → slots_of <$> k1 a = slots_of <$> k2 b) →
  slots_of g1 = slots_of g2 →
  slots_of <$> (f1 g1 ≫= k1) = slots_of <$> (f2 g2 ≫= k2).
Proof.
  intros Hf Hk Hg. specialize (Hf g1 g2 Hg).
  destruct (f1 g1) as [a|], (f2 g2) as [b|]; simpl in *; try done.
  apply Hk. by apply (inj Some) in Hf.
Qed.

Lemma slots_loop_slots i1 i2 ps : ∀ n g1 g2,
  switch_detent i1 = switch_detent i2 → switch_reset i1 = switch_reset i2 →
  slots_of g1 = slots_of g2 →
  slots_of <$> slots_loop colorwheel n ps i1 g1
  = slots_of <$> slots_loop colorwheel n ps i2 g2.
Proof.
  induction ps as [|pos rest IH]; intros n g1 g2 Hd Hr Hg; simpl.
  - by rewrite Hg.
  - apply bind_slots; [|by auto|done].
    intros a b Hab. unfold slot_body. apply bind_slots; [| |done].
    + intros. by apply detent_branch_slots.
    + intros. by apply reset_branch_slots.
Qed.

Lemma tick_slots i1 i2 g1 g2 :
  same_reads i1 i2 → slots_of g1 = slots_of g2 →
  slots_of <$> tick rgb_color_wheel colorwheel i1 g1
  = slots_of <$> tick rgb_color_wheel colorwheel i2 g2.
Proof.
  intros (Hp & Hd & Hr) Hg. unfold tick. rewrite Hp.
  apply bind_slots.
  - intros. by apply slots_loop_slots.
  - intros a b Hab.
    change (Some (slots_of a) = Some (slots_of b)). by rewrite Hab.
  - unfold slots_of. simpl.
    destruct (color_gate_slots i1 g1) as (-> & -> & -> & ->).
    by destruct (color_gate_slots i2 g2) as (-> & -> & -> & ->).
Qed.

Lemma run_slots inps1 : ∀ inps2 g1 g2,
  Forall2 same_reads inps1 inps2 → slots_of g1 = slots_of g2 →
  slots_of <$> run rgb_color_wheel colorwheel inps1 g1
  = slots_of <$> run rgb_color_wheel colorwheel inps2 g2.
Proof.
  induction inps1 as [|i1 rest1 IH]; intros inps2 g1 g2 Hall Hg.
  - apply Forall2_nil_inv_l in Hall as ->. simpl. by rewrite Hg.
  - apply Forall2_cons_inv_l in Hall as (i2 & rest2 & Hi & Hrest & ->).
    simpl. apply bind_slots; [|by auto|done].
    intros. by apply tick_slots.
Qed.

Lemma healths_slots (o : option Globals) :
  healths <$> o = (λ s, _health <$> s.1.1.1) <$> (slots_of <$> o).
Proof. by destruct o. Qed.

Lemma last_positions_slots (o : option Globals) :
  last_positions <$> o = (λ s, s.1.1.2) <$> (slots_of <$> o).
Proof. by destruct o. Qed.

Lemma scenario_clock (clk : nat → float * float) :
  Forall2 same_reads (scenario clk) (scenario (λ _, (0, 0)%float)).
Proof. unfold scenario. by repeat constructor. Qed.

(** C6. From the start state (four counters at 40), the scenario ends
    with the counters at [43, 40, 40, 40], whatever the clock reads; the
    backward detent of slot 2 is recorded in [last_positions]. *)
Theorem scenario_final_counters (led : bool) (clk : nat → float * float) :
  healths (init_globals led) = [40; 40; 40; 40]
  ∧ healths <$> run rgb_color_wheel colorwheel (scenario clk)
                    (init_globals led)
    = Some [43; 40; 40; 40]
  ∧ last_positions <$> run rgb_color_wheel colorwheel (scenario clk)
                           (init_globals led)
    = Some [3; 0; -1; 0].
Proof.
  split; [done|].
  rewrite healths_slots, last_positions_slots.
  rewrite (run_slots (scenario clk) (scenario (λ _, (0, 0)%float))
             (init_globals led) (init_globals false))
    by (apply scenario_clock || done).
  split; by vm_compute.
Qed.

End LoopFacts.

(** * The theorems at concrete inputs *)

Lemma held_switch_forces_40_witness :
  four_slots (init_globals false)
  ∧ four_reads (steady (1, 1.5)%float [0; 5; 0; 0] [true; false; true; true])
  ∧ ∃ g' p p',
      tick flat_rgb_wheel flat_wheel
           (steady (1, 1.5)%float [0; 5; 0; 0] [true; false; true; true])
           (init_globals false) = Some g'
      ∧ players (init_globals false) !! 1%nat = Some p
      ∧ players g' !! 1%nat = Some p'
      ∧ _health p' = 40 ∧ _name p' = _name p
      ∧ shown_text p' = _name p +:+ ": 40".
Proof.
  assert (four_slots (init_globals false)) as H1 by (by vm_compute).
  assert (four_reads (steady (1, 1.5)%float [0; 5; 0; 0]
                        [true; false; true; true])) as H2 by (by vm_compute).
  refine (conj H1 (conj H2 _)).
  exact (held_switch_forces_40 _ _ _ _ 1%nat H1 H2 eq_refl).
Defined.

Lemma detent_adjusts_counter_witness :
  ∃ g' p',
    tick flat_rgb_wheel flat_wheel
         (steady (1, 1.5)%float [0; 0; 0; -2] [true; true; true; true])
         (init_globals false) = Some g'
    ∧ players g' !! 3%nat = Some p'
    ∧ _health p' = (if bool_decide (-2 > 0) then 40 + 1 else 40 - 1)
    ∧ colors g' !! 3%nat
      = Some (if bool_decide (-2 > 0) then (0 + 8) `mod` 256
              else (0 - 8) `mod` 256).
Proof.
  apply (detent_adjusts_counter flat_rgb_wheel flat_wheel
           (steady (1, 1.5)%float [0; 0; 0; -2] [true; true; true; true])
           (init_globals false) 3%nat (-2) 0 0
           (Player.__init__ "Player 4" [0x00; 0xff; 0xff] 38)).
  - by vm_compute.
  - by vm_compute.
  - reflexivity.
  - reflexivity.
  - lia.
  - reflexivity.
  - reflexivity.
  - reflexivity.
  - reflexivity.
Defined.

Lemma last_position_recorded_witness :
  ∃ g',
    tick flat_rgb_wheel flat_wheel
         (steady (1, 1.5)%float [7; 0; 0; 0] [false; true; true; true])
         (init_globals false) = Some g'
    ∧ last_positions g' !! 0%nat = Some 7
    ∧ ∀ inp2, four_reads inp2 → positions inp2 !! 0%nat = Some 7 →
        switch_reset inp2 !! 0%nat = Some true →
        ∃ g'', tick flat_rgb_wheel flat_wheel inp2 g' = Some g''
               ∧ last_positions g'' !! 0%nat = Some 7
               ∧ players g'' !! 0%nat = players g' !! 0%nat
               ∧ colors g'' !! 0%nat = colors g' !! 0%nat.
Proof.
  apply (last_position_recorded flat_rgb_wheel flat_wheel
           (steady (1, 1.5)%float [7; 0; 0; 0] [false; true; true; true])
           (init_globals false) 0%nat 7).
  - by vm_compute.
  - by vm_compute.
  - reflexivity.
Defined.

Lemma held_detent_only_records_witness :
  detent_branch 2 (-1)
    (steady (1, 1.5)%float [0; 0; -1; 0] [true; true; false; true])
    (init_globals false)
  = Some (with_last_positions [0; 0; -1; 0] (init_globals false))
  ∧ ∃ g',
      tick flat_rgb_wheel flat_wheel
           (steady (1, 1.5)%float [0; 0; -1; 0] [true; true; false; true])
           (init_globals false) = Some g'
      ∧ last_positions g' !! 2%nat = Some (-1)
      ∧ colors g' !! 2%nat = Some 0
      ∧ players g' !! 2%nat
        = Some (Player.set_health
                  (Player.__init__ "Player 3" [0xff; 0x00; 0xff] 28) 40).
Proof.
  apply (held_detent_only_records flat_rgb_wheel flat_wheel
           (steady (1, 1.5)%float [0; 0; -1; 0] [true; true; false; true])
           (init_globals false) 2%nat (-1) 0 0
           (Player.__init__ "Player 3" [0xff; 0x00; 0xff] 28) false).
  - by vm_compute.
  - by vm_compute.
  - reflexivity.
  - reflexivity.
  - lia.
  - reflexivity.
  - reflexivity.
  - reflexivity.
  - reflexivity.
Defined.

Lemma startup_position_is_a_detent_witness :
  last_positions (init_globals false) !! 1%nat = Some 0
  ∧ healths (init_globals false) !! 1%nat = Some 40
  ∧ ∃ g',
      tick flat_rgb_wheel flat_wheel
           (steady (1, 1.5)%float [0; 12; 0; 0] [true; true; true; true])
           (init_globals false) = Some g'
      ∧ healths g' !! 1%nat = Some (if bool_decide (12 > 0) then 41 else 39).
Proof.
  apply (startup_position_is_a_detent flat_rgb_wheel flat_wheel false
           (steady (1, 1.5)%float [0; 12; 0; 0] [true; true; true; true])
           1%nat 12).
  - by vm_compute.
  - reflexivity.
  - lia.
  - reflexivity.
  - reflexivity.
Defined.

Lemma color_gate_once_witness :
  PrimFloat.ltb (next_color (init_globals false) + next_color_step)%float
                (monotonic_1 (quantum 0)) = true
  ∧ (emitted_colors (events (color_gate flat_rgb_wheel (quantum 0)
                               (init_globals false)))
     ≤ S (emitted_colors (events (init_globals false))))%nat
  ∧ color_index (init_globals false)
    ≤ color_index (color_gate flat_rgb_wheel (quantum 0) (init_globals false))
    ≤ color_index (init_globals false) + 1
  ∧ color_gate flat_rgb_wheel (quantum 0)
      (color_gate flat_rgb_wheel (quantum 0) (init_globals false))
    = color_gate flat_rgb_wheel (quantum 0) (init_globals false)
  ∧ rgb (color_gate flat_rgb_wheel (quantum 0)
           (color_gate flat_rgb_wheel (quantum 0) (init_globals false)))
    = rgb (color_gate flat_rgb_wheel (quantum 0) (init_globals false)).
Proof.
  split; [reflexivity|].
  apply (color_gate_once flat_rgb_wheel (quantum 0) (quantum 0)
           (init_globals false)).
  right. split; reflexivity.
Defined.

Lemma blue_led_ten_toggles_witness :
  length (quanta 1000) = 1000%nat
  ∧ quanta_elapse (next_color (init_globals false)) (quanta 1000) = true
  ∧ ∃ g',
      run flat_rgb_wheel flat_wheel (quanta 1000) (init_globals false)
      = Some g'
      ∧ color_index g' = 1000
      ∧ blue_toggles (events g')
        = (blue_toggles (events (init_globals false)) + 10)%nat
      ∧ blue_led g' = Nat.iter 10 negb (blue_led (init_globals false))
      ∧ blue_led g' = blue_led (init_globals false)
      ∧ ∀ k, (k ≤ 1000)%nat →
          ∃ gk, run flat_rgb_wheel flat_wheel (take k (quanta 1000))
                    (init_globals false) = Some gk
                ∧ color_index gk = Z.of_nat k
                ∧ blue_toggles (events gk)
                  = (blue_toggles (events (init_globals false))
                     + k `div` 100)%nat
                ∧ blue_led gk
                  = Nat.iter (k `div` 100) negb
                             (blue_led (init_globals false)).
Proof.
  assert (length (quanta 1000) = 1000%nat) as Hlen by (by vm_compute).
  assert (quanta_elapse (next_color (init_globals false)) (quanta 1000)
          = true) as Hq by (by vm_compute).
  refine (conj Hlen (conj Hq _)).
  apply (blue_led_ten_toggles flat_rgb_wheel flat_wheel (quanta 1000)
           (init_globals false)).
  - by vm_compute.
  - apply Forall_fmap, Forall_true. intros i. by vm_compute.
  - reflexivity.
  - exact Hlen.
  - exact Hq.
Defined.

(** * Further properties of [Player] *)

(** X1. [decrement_health] after [increment_health], and the other way
    round, give back the health; the object is the one [update_health]
    leaves, so only the text can differ from before. *)
Theorem increment_decrement_round_trip (p : Player) :
  (Player.decrement_health (Player.increment_health p).1).1
  = Player.update_health p
  ∧ (Player.increment_health (Player.decrement_health p).1).1
    = Player.update_health p
  ∧ (Player.decrement_health (Player.increment_health p).1).2 = _health p
  ∧ (Player.increment_health (Player.decrement_health p).1).2 = _health p.
Proof.
  rewrite !increment_health_spec, !decrement_health_spec. simpl.
  rewrite ?increment_health_spec, ?decrement_health_spec. simpl.
  destruct (set_health_fields p (_health p + 1)) as (_ & -> & _).
  destruct (set_health_fields p (_health p - 1)) as (_ & -> & _).
  replace (_health p + 1 - 1) with (_health p) by lia.
  replace (_health p - 1 + 1) with (_health p) by lia.
  repeat split.
  - unfold Player.set_health, Player.update_health, Player.store_health,
      Player.set_text_area. simpl. by repeat case_bool_decide.
  - unfold Player.set_health, Player.update_health, Player.store_health,
      Player.set_text_area. simpl. by repeat case_bool_decide.
Qed.

Lemma decrement_times_S (k : nat) (p : Player) :
  decrement_times (S k) p
  = Player.set_health (decrement_times k p) (_health (decrement_times k p) - 1).
Proof.
  unfold decrement_times.
  change (Nat.iter (S k) ?f p) with (f (Nat.iter k f p)). cbv beta.
  by rewrite decrement_health_spec.
Qed.

Lemma decrement_times_fields (k : nat) (p : Player) :
  _name (decrement_times k p) = _name p
  ∧ _health (decrement_times k p) = _health p - Z.of_nat k.
Proof.
  induction k as [|k [IHn IHh]].
  - simpl. split; [done|lia].
  - rewrite decrement_times_S.
    destruct (set_health_fields (decrement_times k p)
                (_health (decrement_times k p) - 1)) as (-> & -> & _).
    split; [done|lia].
Qed.

(** X2. There is no floor: [k] decrements take the health to exactly
    [health - k], below zero as well, and from the first decrement on the
    text is ["<name>: Out!"] exactly when that value is at most 0. *)
Theorem decrement_has_no_floor (k : nat) (p : Player) :
  _health (decrement_times k p) = _health p - Z.of_nat k
  ∧ shown_text (decrement_times (S k) p)
    = if bool_decide (_health p ≤ Z.of_nat (S k))
      then _name p +:+ ": Out!"
      else _name p +:+ ": " +:+ pretty (_health p - Z.of_nat (S k)).
Proof.
  split; [apply decrement_times_fields|].
  rewrite decrement_times_S, set_health_shown_text.
  destruct (decrement_times_fields k p) as [-> ->].
  unfold out_text, health_text.
  replace (_health p - Z.of_nat k - 1) with (_health p - Z.of_nat (S k)) by lia.
  repeat case_bool_decide; done || lia.
Qed.

(** * Further properties of the loop *)

Section LoopExtras.

Variable rgb_color_wheel : Z → Z * Z * Z.
Variable colorwheel : Z → Z.

(** What a pass that returned did, read backwards from its result. *)
Lemma tick_inv inp g g' :
  four_slots g → four_reads inp →
  tick rgb_color_wheel colorwheel inp g = Some g' →
  four_slots g'
  ∧ ambient g' = ambient (color_gate rgb_color_wheel inp g)
  ∧ ∀ k, (k < 4)%nat →
      ∃ pos, positions inp !! k = Some pos
             ∧ slot_post colorwheel k pos inp g g'.
Proof.
  intros Hg Hinp Ht.
  destruct (tick_spec rgb_color_wheel colorwheel inp g Hg Hinp)
    as (g'' & Ht' & Hg' & Ha & Hpost).
  rewrite Ht in Ht'. injection Ht' as <-.
  refine (conj Hg' (conj Ha _)). intros k Hk.
  destruct (lookup_four (positions inp) k (proj1 Hinp) Hk) as [pos Epos].
  exists pos. split; [done|]. by apply Hpost.
Qed.

(** A property of the state that every pass keeps holds after every run,
    and the run returns. *)
Lemma run_invariant (I : Globals → Prop) :
  (∀ inp g g', four_slots g → four_reads inp → I g →
     tick rgb_color_wheel colorwheel inp g = Some g' → I g') →
  ∀ inps g, four_slots g → Forall four_reads inps → I g →
    ∃ g', run rgb_color_wheel colorwheel inps g = Some g'
          ∧ four_slots g' ∧ I g'.
Proof.
  intros Hstep inps. induction inps as [|inp rest IH]; intros g Hg Hall HI.
  - by exists g.
  - apply Forall_cons in Hall as [Hinp Hall]. simpl.
    destruct (tick_spec rgb_color_wheel colorwheel inp g Hg Hinp)
      as (g1 & Ht & Hg1 & _). rewrite Ht. simpl.
    apply IH; [done..|]. exact (Hstep inp g g1 Hg Hinp HI Ht).
Qed.

Lemma tick_players_Forall (P : Player → Prop) inp g g' :
  (∀ pos last sw1 sw2 p,
     P p → P (reset_player sw2 (detent_player pos last sw1 p))) →
  four_slots g → four_reads inp →
  tick rgb_color_wheel colorwheel inp g = Some g' →
  Forall P (players g) → Forall P (players g').
Proof.
  intros HP Hg Hinp Ht Hall.
  destruct (tick_inv inp g g' Hg Hinp Ht) as (Hg' & _ & Hslot).
  apply Forall_lookup. intros k p' Hk.
  assert (k < 4)%nat as Hlt.
  { apply lookup_lt_Some in Hk. destruct Hg' as (? & _). lia. }
  destruct (Hslot k Hlt) as (pos & _ & p & last & c & sw1 & sw2
                             & Ep & _ & _ & _ & _ & Ep' & _).
  rewrite Ep' in Hk. injection Hk as <-. apply HP.
  by eapply (proj1 (Forall_lookup _ _) Hall).
Qed.

Lemma tick_colors_Forall (P : Z → Prop) inp g g' :
  (∀ pos last sw c, P c → P (detent_color pos last sw c)) →
  four_slots g → four_reads inp →
  tick rgb_color_wheel colorwheel inp g = Some g' →
  Forall P (colors g) → Forall P (colors g').
Proof.
  intros HP Hg Hinp Ht Hall.
  destruct (tick_inv inp g g' Hg Hinp Ht) as (Hg' & _ & Hslot).
  apply Forall_lookup. intros k c' Hk.
  assert (k < 4)%nat as Hlt.
  { apply lookup_lt_Some in Hk. destruct Hg' as (_ & _ & ? & _). lia. }
  destruct (Hslot k Hlt) as (pos & _ & p & last & c & sw1 & sw2
                             & _ & _ & Ec & _ & _ & _ & _ & Ec' & _).
  rewrite Ec' in Hk. injection Hk as <-. apply HP.
  by eapply (proj1 (Forall_lookup _ _) Hall).
Qed.

(** X3. On the set-up with four slots the loop never raises
    [IndexError]: every run over readings of four encoders and four
    switches returns, and the state keeps its four slots. *)
Theorem run_never_raises (inps : list Reading) (g : Globals) :
  four_slots g → Forall four_reads inps →
  ∃ g', run rgb_color_wheel colorwheel inps g = Some g' ∧ four_slots g'.
Proof.
  intros Hg Hall.
  destruct (run_invariant (λ _, True) (λ _ _ _ _ _ _ _, I) inps g Hg Hall I)
    as (g' & Hr & Hg' & _).
  by exists g'.
Qed.

Lemma static_part_set_health (p : Player) (v : Z) :
  static_part (Player.set_health p v) = static_part p.
Proof.
  unfold Player.set_health, Player.update_health. by case_bool_decide.
Qed.

Lemma static_part_slot pos last sw1 sw2 (p : Player) :
  static_part (reset_player sw2 (detent_player pos last sw1 p))
  = static_part p.
Proof.
  unfold reset_player, detent_player.
  rewrite increment_health_spec, decrement_health_spec. simpl.
  repeat case_match; by rewrite ?static_part_set_health.
Qed.

Lemma tick_static inp g g' :
  four_slots g → four_reads inp →
  tick rgb_color_wheel colorwheel inp g = Some g' →
  static_part <$> players g' = static_part <$> players g.
Proof.
  intros Hg Hinp Ht.
  destruct (tick_inv inp g g' Hg Hinp Ht) as (Hg' & _ & Hslot).
  apply list_eq. intros k. rewrite !list_lookup_fmap.
  destruct (decide (k < 4)%nat) as [Hlt|Hge].
  - destruct (Hslot k Hlt) as (pos & _ & p & last & c & sw1 & sw2
                               & -> & _ & _ & _ & _ & -> & _).
    simpl. by rewrite static_part_slot.
  - destruct Hg as (Hp & _), Hg' as (Hp' & _).
    by rewrite !lookup_ge_None_2 by lia.
Qed.

(** X4. No run changes a player's name or colour, or the colour and the
    place of its label: of a player only the health and the text move. *)
Theorem run_keeps_static_part (inps : list Reading) (g : Globals) :
  four_slots g → Forall four_reads inps →
  ∃ g', run rgb_color_wheel colorwheel inps g = Some g'
        ∧ static_part <$> players g' = static_part <$> players g.
Proof.
  intros Hg Hall.
  destruct (run_invariant
              (λ g', static_part <$> players g' = static_part <$> players g))
    with (inps := inps) (g := g) as (g' & Hr & _ & HI); try done.
  - intros inp g1 g2 Hg1 Hinp HI Ht.
    by rewrite (tick_static inp g1 g2 Hg1 Hinp Ht).
  - by exists g'.
Qed.

Lemma text_current_set_health (p : Player) (v : Z) :
  text_current (Player.set_health p v).
Proof.
  unfold text_current. rewrite set_health_shown_text.
  destruct (set_health_fields p v) as (-> & -> & _).
  repeat case_bool_decide; done || lia.
Qed.

Lemma text_current_slot pos last sw1 sw2 (p : Player) :
  text_current p →
  text_current (reset_player sw2 (detent_player pos last sw1 p)).
Proof.
  intros Hp. unfold reset_player, detent_player.
  rewrite increment_health_spec, decrement_health_spec. simpl.
  repeat case_match; done || apply text_current_set_health.
Qed.

(** X5. The display is never stale: if every label shows the text of its
    player's health before a run (as after the set-up), every label does
    so after it, whatever the encoders and switches did. *)
Theorem run_keeps_text_current (inps : list Reading) (g : Globals) :
  four_slots g → Forall four_reads inps →
  Forall text_current (players g) →
  ∃ g', run rgb_color_wheel colorwheel inps g = Some g'
        ∧ Forall text_current (players g').
Proof.
  intros Hg Hall Hcur.
  destruct (run_invariant (λ g', Forall text_current (players g')))
    with (inps := inps) (g := g) as (g' & Hr & _ & HI); try done.
  - intros inp g1 g2 Hg1 Hinp HI Ht.
    eapply tick_players_Forall; [|done..].
    intros. by apply text_current_slot.
  - by exists g'.
Qed.

Lemma on_wheel_slot pos last sw (c : Z) :
  on_wheel c → on_wheel (detent_color pos last sw c).
Proof.
  unfold on_wheel, detent_color. intros [Hr Hm].
  repeat case_match; try done; split;
    Z.div_mod_to_equations; lia.
Qed.

(** X6. The colour offsets stay on the wheel: if they are in 0..255 and
    multiples of 8 before a run (as after the set-up, where they are 0),
    they are so after it, so [colorwheel] is only asked for 32 places. *)
Theorem run_keeps_colors_on_wheel (inps : list Reading) (g : Globals) :
  four_slots g → Forall four_reads inps →
  Forall on_wheel (colors g) →
  ∃ g', run rgb_color_wheel colorwheel inps g = Some g'
        ∧ Forall on_wheel (colors g').
Proof.
  intros Hg Hall Hcol.
  destruct (run_invariant (λ g', Forall on_wheel (colors g')))
    with (inps := inps) (g := g) as (g' & Hr & _ & HI); try done.
  - intros inp g1 g2 Hg1 Hinp HI Ht.
    eapply tick_colors_Forall; [|done..].
    intros. by apply on_wheel_slot.
  - by exists g'.
Qed.

(** X7. After every pass the pixel of a slot is full white when the reset
    test read its switch as held, and otherwise the wheel colour of the
    offset the slot holds after that pass. *)
Theorem pixel_after_tick (inp : Reading) (g : Globals) (n : nat)
    (sw2 : bool) :
  four_slots g → four_reads inp →
  switch_reset inp !! n = Some sw2 →
  ∃ g' c',
    tick rgb_color_wheel colorwheel inp g = Some g'
    ∧ colors g' !! n = Some c'
    ∧ pixels g' !! n = Some (if sw2 then colorwheel c' else 0xFFFFFF).
Proof.
  intros Hg Hinp Hsw.
  destruct (tick_spec rgb_color_wheel colorwheel inp g Hg Hinp)
    as (g' & Ht & Hg' & _).
  assert (n < 4)%nat as Hn.
  { apply lookup_lt_Some in Hsw. destruct Hinp as (_ & _ & ?). lia. }
  destruct (tick_inv inp g g' Hg Hinp Ht) as (_ & _ & Hslot).
  destruct (Hslot n Hn) as (pos & _ & p & last & c & sw1 & s2
                            & _ & _ & _ & _ & E2 & _ & _ & Ec' & Ex').
  rewrite Hsw in E2. injection E2 as <-.
  by exists g', (detent_color pos last sw1 c).
Qed.

(** *** The event log *)

Lemma slot_body_events n pos inp g g' :
  four_slots g → four_switches inp → (n < 4)%nat →
  slot_body colorwheel n pos inp g = Some g' →
  ∃ sw2, switch_reset inp !! n = Some sw2 ∧ four_slots g'
         ∧ events g'
           = (if sw2 : bool then []
              else [EvSetupMessage " Life Reset! "]) ++ events g.
Proof.
  intros Hg [Hd Hr] Hn Hb. pose proof Hg as (Hp & Hl & Hc & Hx).
  destruct (slot_body_spec colorwheel n pos inp g Hg (conj Hd Hr) Hn)
    as (g'' & Hb' & Hg' & _).
  rewrite Hb in Hb'. injection Hb' as <-.
  destruct (lookup_four (players g) n Hp Hn) as [p Ep].
  destruct (lookup_four (last_positions g) n Hl Hn) as [last El].
  destruct (lookup_four (colors g) n Hc Hn) as [c Ec].
  destruct (lookup_four (switch_detent inp) n Hd Hn) as [sw1 E1].
  destruct (lookup_four (switch_reset inp) n Hr Hn) as [sw2 E2].
  exists sw2. refine (conj E2 (conj Hg' _)).
  unfold slot_body in Hb.
  rewrite (detent_branch_spec n pos inp g p last c sw1) in Hb by done.
  simpl in Hb.
  erewrite reset_branch_spec in Hb; [| |simpl..|done].
  - injection Hb as <-. simpl. by destruct sw2.
  - unfold four_slots. simpl. by rewrite !length_insert.
  - apply list_lookup_insert_eq. lia.
  - apply list_lookup_insert_eq. lia.
Qed.

Lemma slots_loop_events inp ps : ∀ n g g',
  four_slots g → four_switches inp → (n + length ps = 4)%nat →
  slots_loop colorwheel n ps inp g = Some g' →
  events g'
  = replicate (held_count (take (length ps) (drop n (switch_reset inp))))
              (EvSetupMessage " Life Reset! ") ++ events g.
Proof.
  induction ps as [|pos rest IH]; intros n g g' Hg Hsw Hlen Hloop;
    simpl in *.
  - by injection Hloop as <-.
  - destruct (slot_body colorwheel n pos inp g) as [g1|] eqn:Hb; [|done].
    simpl in Hloop.
    destruct (slot_body_events n pos inp g g1 Hg Hsw) as
      (sw2 & E2 & Hg1 & Hev); [lia|done|].
    rewrite (IH (S n) g1 g' Hg1 Hsw) by (lia || done).
    rewrite Hev, (drop_S _ _ _ E2). simpl.
    destruct sw2; simpl; [done|].
    by rewrite cons_middle, app_assoc, <- replicate_S_end.
Qed.

(** X8. What one pass writes to the log, newest first: one
    [display.refresh()], before it one [" Life Reset! "] message for each
    slot whose reset test read the switch as held, before those one
    [show_message] with the colour the gate left, before that whatever
    the gate wrote. *)
Theorem tick_event_log (inp : Reading) (g : Globals) :
  four_slots g → four_reads inp →
  ∃ g',
    tick rgb_color_wheel colorwheel inp g = Some g'
    ∧ events g'
      = EvRefresh
        :: replicate (held_count (switch_reset inp))
                     (EvSetupMessage " Life Reset! ")
        ++ EvShowMessage (rgb (color_gate rgb_color_wheel inp g))
        :: events (color_gate rgb_color_wheel inp g).
Proof.
  intros Hg Hinp.
  destruct (tick_spec rgb_color_wheel colorwheel inp g Hg Hinp)
    as (g' & Ht & _).
  exists g'. split; [done|].
  destruct Hinp as (Hlen & Hsw). unfold tick in Ht.
  destruct (color_gate_slots rgb_color_wheel inp g) as (Ep & El & Ec & Ex).
  set (g1 := color_gate rgb_color_wheel inp g) in *.
  set (g2 := emit (EvShowMessage (rgb g1)) g1) in *.
  assert (four_slots g2) as Hg2.
  { unfold four_slots, g2. simpl. rewrite Ep, El, Ec, Ex. apply Hg. }
  destruct (slots_loop colorwheel 0 (positions inp) inp g2) as [g3|] eqn:Hl;
    [|done].
  simpl in Ht. injection Ht as <-. simpl.
  rewrite (slots_loop_events inp (positions inp) 0 g2 g3 Hg2 Hsw)
    by (lia || done).
  rewrite Hlen, drop_0, take_ge by (destruct Hsw; lia). done.
Qed.

(** *** What depends on what *)

(** X9. The slots are isolated: what a pass leaves in slot [k] (player,
    last position, colour offset, pixel) is decided by what slot [k] held
    and by the position and switch values read for slot [k]; the other
    slots, the clock and the colour cycle have no part in it. *)
Theorem slots_are_isolated (inp1 inp2 : Reading) (g1 g2 : Globals)
    (k : nat) :
  four_slots g1 → four_slots g2 → four_reads inp1 → four_reads inp2 →
  (k < 4)%nat →
  players g1 !! k = players g2 !! k →
  last_positions g1 !! k = last_positions g2 !! k →
  colors g1 !! k = colors g2 !! k →
  positions inp1 !! k = positions inp2 !! k →
  switch_detent inp1 !! k = switch_detent inp2 !! k →
  switch_reset inp1 !! k = switch_reset inp2 !! k →
  ∃ g1' g2',
    tick rgb_color_wheel colorwheel inp1 g1 = Some g1'
    ∧ tick rgb_color_wheel colorwheel inp2 g2 = Some g2'
    ∧ view k g1' = view k g2'.
Proof.
  intros Hg1 Hg2 Hi1 Hi2 Hk Ep El Ec Epos E1 E2.
  destruct (tick_spec rgb_color_wheel colorwheel inp1 g1 Hg1 Hi1)
    as (g1' & Ht1 & _ & _ & Hpost1).
  destruct (tick_spec rgb_color_wheel colorwheel inp2 g2 Hg2 Hi2)
    as (g2' & Ht2 & _ & _ & Hpost2).
  exists g1', g2'. refine (conj Ht1 (conj Ht2 _)).
  destruct (lookup_four (positions inp1) k (proj1 Hi1) Hk) as [pos Hpos].
  destruct (Hpost1 k pos Hpos) as
    (p & last & c & sw1 & sw2 & Fp & Fl & Fc & F1 & F2
     & Hp1 & Hl1 & Hc1 & Hx1).
  rewrite Epos in Hpos. rewrite Ep in Fp. rewrite El in Fl.
  rewrite Ec in Fc. rewrite E1 in F1. rewrite E2 in F2.
  destruct (Hpost2 k pos Hpos) as
    (p' & last' & c' & sw1' & sw2' & ? & ? & ? & ? & ?
     & Hp2 & Hl2 & Hc2 & Hx2).
  simplify_eq. unfold view. by rewrite Hp1, Hl1, Hc1, Hx1, Hp2, Hl2, Hc2, Hx2.
Qed.

(** X10. The slots do not depend on the clock: two runs from states with
    the same slots, over readings that differ in the clock at most, end
    with the same players, positions, colour offsets and pixels, and so
    with the same counters. *)
Theorem slots_ignore_clock (inps1 inps2 : list Reading) (g1 g2 : Globals) :
  Forall2 same_reads inps1 inps2 → slots_of g1 = slots_of g2 →
  slots_of <$> run rgb_color_wheel colorwheel inps1 g1
  = slots_of <$> run rgb_color_wheel colorwheel inps2 g2
  ∧ healths <$> run rgb_color_wheel colorwheel inps1 g1
    = healths <$> run rgb_color_wheel colorwheel inps2 g2.
Proof.
  intros Hall Hg.
  pose proof (run_slots rgb_color_wheel colorwheel inps1 inps2 g1 g2 Hall Hg)
    as H.
  split; [done|]. by rewrite !healths_slots, H.
Qed.

Lemma color_gate_ambient inp1 inp2 g1 g2 :
  monotonic_1 inp1 = monotonic_1 inp2 → monotonic_2 inp1 = monotonic_2 inp2 →
  ambient g1 = ambient g2 →
  ambient (color_gate rgb_color_wheel inp1 g1)
  = ambient (color_gate rgb_color_wheel inp2 g2).
Proof.
  destruct g1, g2. unfold ambient, color_gate. simpl.
  intros -> -> [= -> -> -> -> Hb He].
  destruct (PrimFloat.ltb _ _); [case_bool_decide|]; simpl;
    by rewrite ?Hb, ?He.
Qed.

(** X11. The colour cycle does not depend on the encoders: two passes
    with the same clock readings, from states with the same ambient part,
    leave the same colour, index, gate time, LED state and number of
    colour and LED writes, whatever the positions, switches and players. *)
Theorem ambient_ignores_slots (inp1 inp2 : Reading) (g1 g2 : Globals) :
  four_slots g1 → four_slots g2 → four_reads inp1 → four_reads inp2 →
  monotonic_1 inp1 = monotonic_1 inp2 → monotonic_2 inp1 = monotonic_2 inp2 →
  ambient g1 = ambient g2 →
  ∃ g1' g2',
    tick rgb_color_wheel colorwheel inp1 g1 = Some g1'
    ∧ tick rgb_color_wheel colorwheel inp2 g2 = Some g2'
    ∧ ambient g1' = ambient g2'.
Proof.
  intros Hg1 Hg2 Hi1 Hi2 Hm1 Hm2 Ha.
  destruct (tick_spec rgb_color_wheel colorwheel inp1 g1 Hg1 Hi1)
    as (g1' & Ht1 & _ & Ha1 & _).
  destruct (tick_spec rgb_color_wheel colorwheel inp2 g2 Hg2 Hi2)
    as (g2' & Ht2 & _ & Ha2 & _).
  exists g1', g2'. refine (conj Ht1 (conj Ht2 _)).
  rewrite Ha1, Ha2. by apply color_gate_ambient.
Qed.

(** *** The colour cycle over a run *)

Lemma color_gate_steps inp g :
  ∃ d e : nat,
    (d ≤ e ≤ 1)%nat
    ∧ blue_toggles (events (color_gate rgb_color_wheel inp g))
      = (d + blue_toggles (events g))%nat
    ∧ emitted_colors (events (color_gate rgb_color_wheel inp g))
      = (e + emitted_colors (events g))%nat
    ∧ color_index (color_gate rgb_color_wheel inp g)
      = color_index g + Z.of_nat e
    ∧ blue_led (color_gate rgb_color_wheel inp g)
      = Nat.iter d negb (blue_led g).
Proof.
  unfold color_gate. destruct (PrimFloat.ltb _ _); [case_bool_decide|].
  - exists 1%nat, 1%nat. simpl. repeat split; lia.
  - exists 0%nat, 1%nat. simpl. repeat split; lia.
  - exists 0%nat, 0%nat. simpl. repeat split; lia.
Qed.

Lemma run_ambient_steps (inps : list Reading) : ∀ g,
  four_slots g → Forall four_reads inps →
  ∃ g' (d e : nat),
    run rgb_color_wheel colorwheel inps g = Some g'
    ∧ (d ≤ e ≤ length inps)%nat
    ∧ blue_toggles (events g') = (d + blue_toggles (events g))%nat
    ∧ emitted_colors (events g') = (e + emitted_colors (events g))%nat
    ∧ color_index g' = color_index g + Z.of_nat e
    ∧ blue_led g' = Nat.iter d negb (blue_led g).
Proof.
  induction inps as [|inp rest IH]; intros g Hg Hall.
  - exists g, 0%nat, 0%nat. simpl. repeat split; lia.
  - apply Forall_cons in Hall as [Hinp Hall]. simpl.
    destruct (tick_spec rgb_color_wheel colorwheel inp g Hg Hinp)
      as (g1 & -> & Hg1 & Ha & _). simpl.
    destruct (color_gate_steps inp g) as (d1 & e1 & Hb1 & Ht1 & He1 & Hc1 & Hl1).
    unfold ambient in Ha. injection Ha as _ Eci _ Eled Ebt Eem.
    destruct (IH g1 Hg1 Hall) as (g' & d & e & -> & Hb & Ht & He & Hc & Hl).
    exists g', (d + d1)%nat, (e + e1)%nat.
    refine (conj eq_refl (conj _ (conj _ (conj _ (conj _ _))))).
    + simpl. lia.
    + rewrite Ht, Ebt, Ht1. lia.
    + rewrite He, Eem, He1. lia.
    + rewrite Hc, Eci, Hc1. lia.
    + rewrite Hl, Eled, Hl1. by rewrite Nat.iter_add.
Qed.

(** X12. [color_index] counts the colours written to the helper pixel: over
    any run it grows by exactly the number of such writes, and by at most
    one for each pass, however much time a pass took. *)
Theorem color_index_counts_colors (inps : list Reading) (g : Globals) :
  four_slots g → Forall four_reads inps →
  ∃ g',
    run rgb_color_wheel colorwheel inps g = Some g'
    ∧ color_index g' - color_index g
      = Z.of_nat (emitted_colors (events g'))
        - Z.of_nat (emitted_colors (events g))
    ∧ color_index g ≤ color_index g'
      ≤ color_index g + Z.of_nat (length inps).
Proof.
  intros Hg Hall.
  destruct (run_ambient_steps inps g Hg Hall)
    as (g' & d & e & Hr & Hb & _ & He & Hc & _).
  exists g'. split; [done|]. rewrite He, Hc. lia.
Qed.

(** X13. The blue LED is flipped once for each write the log shows: after
    any run its state is the state before, negated as many times as the
    run wrote it, and it is written at most as often as a colour is. *)
Theorem blue_led_follows_toggles (inps : list Reading) (g : Globals) :
  four_slots g → Forall four_reads inps →
  ∃ g',
    run rgb_color_wheel colorwheel inps g = Some g'
    ∧ (blue_toggles (events g) ≤ blue_toggles (events g'))%nat
    ∧ blue_led g'
      = Nat.iter (blue_toggles (events g') - blue_toggles (events g))
                 negb (blue_led g)
    ∧ (blue_toggles (events g') - blue_toggles (events g)
       ≤ emitted_colors (events g') - emitted_colors (events g))%nat.
Proof.
  intros Hg Hall.
  destruct (run_ambient_steps inps g Hg Hall)
    as (g' & d & e & Hr & Hb & Ht & He & _ & Hl).
  exists g'. split; [done|]. rewrite Ht, He, Hl.
  replace (d + blue_toggles (events g) - blue_toggles (events g))%nat
    with d by lia.
  repeat split; lia.
Qed.

(** *** Counter, position and colour of one slot over a run *)

Lemma detent_player_health pos last sw (p : Player) :
  _health (detent_player pos last sw p)
  = _health p
    + (if adjusts pos last sw
       then if bool_decide (pos > last) then 1 else -1 else 0).
Proof.
  unfold detent_player.
  rewrite increment_health_spec, decrement_health_spec. simpl.
  destruct (adjusts pos last sw); [|lia].
  case_bool_decide.
  - destruct (set_health_fields p (_health p + 1)) as (_ & -> & _). lia.
  - destruct (set_health_fields p (_health p - 1)) as (_ & -> & _). lia.
Qed.

Lemma detent_color_mod pos last sw (c : Z) :
  detent_color pos last sw c `mod` 256
  = (c + 8 * (if adjusts pos last sw
              then if bool_decide (pos > last) then 1 else -1 else 0))
    `mod` 256.
Proof.
  unfold detent_color. destruct (adjusts pos last sw).
  - rewrite wrap_256, Z.mod_mod by done. by case_bool_decide.
  - by rewrite Z.add_0_r.
Qed.

(** One pass in which the reset test does not read slot [n] as held. *)
Lemma tick_slot_steps inp g n p last c :
  four_slots g → four_reads inp →
  players g !! n = Some p → last_positions g !! n = Some last →
  colors g !! n = Some c → switch_reset inp !! n = Some true →
  ∃ g' p' c' pos sw1,
    tick rgb_color_wheel colorwheel inp g = Some g'
    ∧ four_slots g'
    ∧ positions inp !! n = Some pos ∧ switch_detent inp !! n = Some sw1
    ∧ players g' !! n = Some p' ∧ last_positions g' !! n = Some pos
    ∧ colors g' !! n = Some c'
    ∧ _health p'
      = _health p + (if adjusts pos last sw1
                     then if bool_decide (pos > last) then 1 else -1 else 0)
    ∧ c' `mod` 256 = (c + 8 * (_health p' - _health p)) `mod` 256.
Proof.
  intros Hg Hinp Ep El Ec E2.
  assert (n < 4)%nat as Hn.
  { apply lookup_lt_Some in Ep. destruct Hg as (? & _). lia. }
  destruct (tick_spec rgb_color_wheel colorwheel inp g Hg Hinp)
    as (g' & Ht & Hg' & _ & Hpost).
  destruct (lookup_four (positions inp) n (proj1 Hinp) Hn) as [pos Epos].
  destruct (Hpost n pos Epos) as
    (p0 & last0 & c0 & sw1 & sw2 & ? & ? & ? & E1 & ? & Ep' & El' & Ec' & _).
  simplify_eq. simpl in Ep'.
  exists g', (detent_player pos last sw1 p), (detent_color pos last sw1 c),
    pos, sw1.
  refine (conj Ht (conj Hg' (conj Epos (conj E1 (conj Ep' (conj El'
            (conj Ec' (conj _ _)))))))).
  - apply detent_player_health.
  - rewrite detent_color_mod, detent_player_health. f_equal. lia.
Qed.

Lemma run_slot_steps (n : nat) (inps : list Reading) : ∀ g p last c,
  four_slots g → Forall four_reads inps →
  players g !! n = Some p → last_positions g !! n = Some last →
  colors g !! n = Some c → never_held n inps = true →
  ∃ g' p' c',
    run rgb_color_wheel colorwheel inps g = Some g'
    ∧ players g' !! n = Some p' ∧ colors g' !! n = Some c'
    ∧ c' `mod` 256 = (c + 8 * (_health p' - _health p)) `mod` 256
    ∧ (single_detents n last inps = true →
       ∃ pos', last_positions g' !! n = Some pos'
               ∧ _health p' - pos' = _health p - last).
Proof.
  induction inps as [|inp rest IH]; intros g p last c Hg Hall Ep El Ec Hnh.
  - exists g, p, c. simpl. refine (conj eq_refl (conj Ep (conj Ec _))).
    split; [f_equal; lia|]. intros _. by exists last.
  - apply Forall_cons in Hall as [Hinp Hall]. simpl in Hnh.
    apply andb_true_iff in Hnh as [E2%bool_decide_eq_true Hnh].
    destruct (tick_slot_steps inp g n p last c Hg Hinp Ep El Ec E2)
      as (g1 & p1 & c1 & pos & sw1 & Ht & Hg1 & Epos & E1 & Ep1 & El1
          & Ec1 & Hh1 & Hc1).
    destruct (IH g1 p1 pos c1 Hg1 Hall Ep1 El1 Ec1 Hnh)
      as (g' & p' & c' & Hr & Ep' & Ec' & Hc' & Hsingle).
    exists g', p', c'. simpl. rewrite Ht. simpl.
    refine (conj Hr (conj Ep' (conj Ec' (conj _ _)))).
    + rewrite Hc', <- Zplus_mod_idemp_l, Hc1, Zplus_mod_idemp_l.
      f_equal. lia.
    + rewrite Epos, E1.
      intros (((Hstep%bool_decide_eq_true & Hsw%bool_decide_eq_true)%andb_true_iff
               & _)%andb_true_iff & Hrest)%andb_true_iff.
      injection Hsw as ->.
      destruct (Hsingle Hrest) as (pos' & El' & Hinv).
      exists pos'. split; [done|]. rewrite Hinv, Hh1. unfold adjusts.
      repeat case_bool_decide; simpl; lia.
Qed.

(** X14. While every pass finds the encoder of a slot at most one detent
    from where the pass before found it, and no pass reads the slot's
    switch as held, the counter follows the encoder: counter minus
    position is the same after the run as before it. *)
Theorem counter_follows_encoder (n : nat) (inps : list Reading)
    (g : Globals) (p : Player) (last : Z) :
  four_slots g → Forall four_reads inps →
  players g !! n = Some p → last_positions g !! n = Some last →
  single_detents n last inps = true →
  ∃ g' p' pos',
    run rgb_color_wheel colorwheel inps g = Some g'
    ∧ players g' !! n = Some p' ∧ last_positions g' !! n = Some pos'
    ∧ _health p' - pos' = _health p - last.
Proof.
  intros Hg Hall Ep El Hs.
  assert (n < 4)%nat as Hn.
  { apply lookup_lt_Some in Ep. destruct Hg as (? & _). lia. }
  destruct (lookup_four (colors g) n (proj1 (proj2 (proj2 Hg))) Hn)
    as [c Ec].
  assert (never_held n inps = true) as Hnh.
  { clear -Hs. revert last Hs. induction inps as [|inp rest IH]; [done|].
    intros last. simpl. destruct (positions inp !! n); [|done].
    intros ((_ & ->)%andb_true_iff & ?)%andb_true_iff. simpl. eauto. }
  destruct (run_slot_steps n inps g p last c Hg Hall Ep El Ec Hnh)
    as (g' & p' & c' & Hr & Ep' & _ & _ & Hsingle).
  destruct (Hsingle Hs) as (pos' & El' & Hinv).
  by exists g', p', pos'.
Qed.

(** X15. While no pass reads the switch of a slot as held, the colour
    offset of the slot follows its counter: it moves by 8 for each step
    of the counter, modulo 256, over the whole run. *)
Theorem color_follows_counter (n : nat) (inps : list Reading)
    (g : Globals) (p : Player) (c : Z) :
  four_slots g → Forall four_reads inps →
  players g !! n = Some p → colors g !! n = Some c →
  never_held n inps = true →
  ∃ g' p' c',
    run rgb_color_wheel colorwheel inps g = Some g'
    ∧ players g' !! n = Some p' ∧ colors g' !! n = Some c'
    ∧ c' `mod` 256 = (c + 8 * (_health p' - _health p)) `mod` 256.
Proof.
  intros Hg Hall Ep Ec Hnh.
  assert (n < 4)%nat as Hn.
  { apply lookup_lt_Some in Ep. destruct Hg as (? & _). lia. }
  destruct (lookup_four (last_positions g) n (proj1 (proj2 Hg)) Hn)
    as [last El].
  destruct (run_slot_steps n inps g p last c Hg Hall Ep El Ec Hnh)
    as (g' & p' & c' & Hr & Ep' & Ec' & Hc' & _).
  by exists g', p', c'.
Qed.

(** X16. The switch is read twice in a pass. When the detent branch reads
    it as not held and the reset test then reads it as held, the detent
    still moves the colour offset by 8 and is recorded, while the counter
    ends at 40: the step of the counter is lost, the step of the colour
    is not. *)
Theorem detent_then_reset (inp : Reading) (g : Globals) (n : nat)
    (pos last c : Z) (p : Player) :
  four_slots g → four_reads inp →
  positions inp !! n = Some pos → last_positions g !! n = Some last →
  pos ≠ last →
  switch_detent inp !! n = Some true → switch_reset inp !! n = Some false →
  players g !! n = Some p → colors g !! n = Some c →
  ∃ g' p',
    tick rgb_color_wheel colorwheel inp g = Some g'
    ∧ players g' !! n = Some p' ∧ _health p' = 40
    ∧ last_positions g' !! n = Some pos
    ∧ colors g' !! n
      = Some (if bool_decide (pos > last)
              then (c + 8) `mod` 256 else (c - 8) `mod` 256).
Proof.
  intros Hg Hinp Epos El Hne E1 E2 Ep Ec.
  destruct (tick_spec rgb_color_wheel colorwheel inp g Hg Hinp)
    as (g' & Ht & _ & _ & Hpost).
  destruct (Hpost n pos Epos) as
    (p0 & last0 & c0 & sw1 & sw2 & ? & ? & ? & ? & ? & Ep' & El' & Ec' & _).
  simplify_eq. simpl in Ep'.
  exists g', (Player.set_health (detent_player pos last true p) 40).
  refine (conj Ht (conj Ep' (conj _ (conj El' _)))).
  - apply set_health_fields.
  - rewrite Ec'. unfold detent_color, adjusts.
    rewrite bool_decide_true by done. simpl.
    rewrite wrap_256. by case_bool_decide.
Qed.

End LoopExtras.

(** * The further properties at concrete inputs *)

Lemma scenario_four_reads (clk : nat → float * float) :
  Forall four_reads (scenario clk).
Proof. unfold scenario. repeat (constructor; [by vm_compute|]). constructor. Qed.

Lemma quanta_four_reads (k : nat) : Forall four_reads (quanta k).
Proof. apply Forall_fmap, Forall_true. intros i. by vm_compute. Qed.

Lemma run_never_raises_witness :
  ∃ g', run flat_rgb_wheel flat_wheel (scenario paced) (init_globals false)
        = Some g'
        ∧ four_slots g'.
Proof.
  apply (run_never_raises flat_rgb_wheel flat_wheel (scenario paced)
           (init_globals false)).
  - by vm_compute.
  - apply scenario_four_reads.
Defined.

Lemma run_keeps_static_part_witness :
  ∃ g', run flat_rgb_wheel flat_wheel (scenario paced) (init_globals false)
        = Some g'
        ∧ static_part <$> players g'
          = static_part <$> players (init_globals false).
Proof.
  apply (run_keeps_static_part flat_rgb_wheel flat_wheel (scenario paced)
           (init_globals false)).
  - by vm_compute.
  - apply scenario_four_reads.
Defined.

Lemma run_keeps_text_current_witness :
  Forall text_current (players (init_globals false))
  ∧ ∃ g', run flat_rgb_wheel flat_wheel (scenario paced) (init_globals false)
          = Some g'
          ∧ Forall text_current (players g').
Proof.
  assert (Forall text_current (players (init_globals false))) as H.
  { simpl. repeat (constructor; [by vm_compute|]). constructor. }
  split; [exact H|].
  apply (run_keeps_text_current flat_rgb_wheel flat_wheel (scenario paced)
           (init_globals false)).
  - by vm_compute.
  - apply scenario_four_reads.
  - exact H.
Defined.

Lemma run_keeps_colors_on_wheel_witness :
  Forall on_wheel (colors (init_globals false))
  ∧ ∃ g', run flat_rgb_wheel flat_wheel (scenario paced) (init_globals false)
          = Some g'
          ∧ Forall on_wheel (colors g').
Proof.
  assert (Forall on_wheel (colors (init_globals false))) as H.
  { simpl. repeat (constructor; [split; [lia|reflexivity]|]). constructor. }
  split; [exact H|].
  apply (run_keeps_colors_on_wheel flat_rgb_wheel flat_wheel
           (scenario paced) (init_globals false)).
  - by vm_compute.
  - apply scenario_four_reads.
  - exact H.
Defined.

Lemma pixel_after_tick_witness :
  ∃ g' c',
    tick flat_rgb_wheel flat_wheel
         (steady (1, 1.5)%float [0; 5; 0; 0] [true; false; true; true])
         (init_globals false) = Some g'
    ∧ colors g' !! 1%nat = Some c'
    ∧ pixels g' !! 1%nat = Some 0xFFFFFF.
Proof.
  apply (pixel_after_tick flat_rgb_wheel flat_wheel
           (steady (1, 1.5)%float [0; 5; 0; 0] [true; false; true; true])
           (init_globals false) 1%nat false).
  - by vm_compute.
  - by vm_compute.
  - reflexivity.
Defined.

Lemma tick_event_log_witness :
  ∃ g',
    tick flat_rgb_wheel flat_wheel
         (steady (1, 1.5)%float [0; 5; 0; 0] [true; false; true; false])
         (init_globals false) = Some g'
    ∧ events g'
      = [ EvRefresh; EvSetupMessage " Life Reset! ";
          EvSetupMessage " Life Reset! "; EvShowMessage (0, 0, 0);
          EvHelperPixel (0, 0, 0); EvSetupMessage " Start! " ].
Proof.
  apply (tick_event_log flat_rgb_wheel flat_wheel
           (steady (1, 1.5)%float [0; 5; 0; 0] [true; false; true; false])
           (init_globals false)).
  - by vm_compute.
  - by vm_compute.
Defined.

Lemma slots_are_isolated_witness :
  ∃ g1' g2',
    tick flat_rgb_wheel flat_wheel
         (steady (1, 1.5)%float [1; 0; 0; 0] [true; true; true; true])
         (init_globals false) = Some g1'
    ∧ tick flat_rgb_wheel flat_wheel
           (steady (5, 5.5)%float [1; 9; 9; 9] [true; false; false; false])
           (init_globals true) = Some g2'
    ∧ view 0 g1' = view 0 g2'.
Proof.
  apply (slots_are_isolated flat_rgb_wheel flat_wheel
           (steady (1, 1.5)%float [1; 0; 0; 0] [true; true; true; true])
           (steady (5, 5.5)%float [1; 9; 9; 9] [true; false; false; false])
           (init_globals false) (init_globals true) 0%nat).
  - by vm_compute.
  - by vm_compute.
  - by vm_compute.
  - by vm_compute.
  - lia.
  - reflexivity.
  - reflexivity.
  - reflexivity.
  - reflexivity.
  - reflexivity.
  - reflexivity.
Defined.

Lemma slots_ignore_clock_witness :
  slots_of <$> run flat_rgb_wheel flat_wheel (scenario paced)
                   (init_globals false)
  = slots_of <$> run flat_rgb_wheel flat_wheel (scenario (λ _, (0, 0)%float))
                     (init_globals true)
  ∧ healths <$> run flat_rgb_wheel flat_wheel (scenario paced)
                    (init_globals false)
    = healths <$> run flat_rgb_wheel flat_wheel (scenario (λ _, (0, 0)%float))
                      (init_globals true).
Proof.
  apply (slots_ignore_clock flat_rgb_wheel flat_wheel (scenario paced)
           (scenario (λ _, (0, 0)%float)) (init_globals false) (init_globals true)).
  - apply scenario_clock.
  - reflexivity.
Defined.

Lemma ambient_ignores_slots_witness :
  ∃ g1' g2',
    tick flat_rgb_wheel flat_wheel (quantum 0) (init_globals false)
    = Some g1'
    ∧ tick flat_rgb_wheel flat_wheel
           (steady (0.125, 0.125)%float [1; 2; 3; 4] [false; false; true; true])
           (init_globals false) = Some g2'
    ∧ ambient g1' = ambient g2'.
Proof.
  apply (ambient_ignores_slots flat_rgb_wheel flat_wheel (quantum 0)
           (steady (0.125, 0.125)%float [1; 2; 3; 4] [false; false; true; true])
           (init_globals false) (init_globals false)).
  - by vm_compute.
  - by vm_compute.
  - by vm_compute.
  - by vm_compute.
  - reflexivity.
  - reflexivity.
  - reflexivity.
Defined.

Lemma color_index_counts_colors_witness :
  ∃ g',
    run flat_rgb_wheel flat_wheel (quanta 200) (init_globals false) = Some g'
    ∧ color_index g' - color_index (init_globals false)
      = Z.of_nat (emitted_colors (events g'))
        - Z.of_nat (emitted_colors (events (init_globals false)))
    ∧ color_index (init_globals false) ≤ color_index g'
      ≤ color_index (init_globals false) + Z.of_nat (length (quanta 200)).
Proof.
  apply (color_index_counts_colors flat_rgb_wheel flat_wheel (quanta 200)
           (init_globals false)).
  - by vm_compute.
  - apply quanta_four_reads.
Defined.

Lemma blue_led_follows_toggles_witness :
  ∃ g',
    run flat_rgb_wheel flat_wheel (quanta 200) (init_globals false) = Some g'
    ∧ (blue_toggles (events (init_globals false))
       ≤ blue_toggles (events g'))%nat
    ∧ blue_led g'
      = Nat.iter (blue_toggles (events g')
                  - blue_toggles (events (init_globals false)))
                 negb (blue_led (init_globals false))
    ∧ (blue_toggles (events g') - blue_toggles (events (init_globals false))
       ≤ emitted_colors (events g')
         - emitted_colors (events (init_globals false)))%nat.
Proof.
  apply (blue_led_follows_toggles flat_rgb_wheel flat_wheel (quanta 200)
           (init_globals false)).
  - by vm_compute.
  - apply quanta_four_reads.
Defined.

Lemma counter_follows_encoder_witness :
  single_detents 0 0 (scenario paced) = true
  ∧ ∃ g' p' pos',
      run flat_rgb_wheel flat_wheel (scenario paced) (init_globals false)
      = Some g'
      ∧ players g' !! 0%nat = Some p'
      ∧ last_positions g' !! 0%nat = Some pos'
      ∧ _health p' - pos' = 40 - 0.
Proof.
  split; [reflexivity|].
  apply (counter_follows_encoder flat_rgb_wheel flat_wheel 0%nat
           (scenario paced) (init_globals false)
           (Player.__init__ "Player 1" [0xff; 0x00; 0x00] 8) 0).
  - by vm_compute.
  - apply scenario_four_reads.
  - reflexivity.
  - reflexivity.
  - reflexivity.
Defined.

Lemma color_follows_counter_witness :
  never_held 0 (scenario paced) = true
  ∧ ∃ g' p' c',
      run flat_rgb_wheel flat_wheel (scenario paced) (init_globals false)
      = Some g'
      ∧ players g' !! 0%nat = Some p' ∧ colors g' !! 0%nat = Some c'
      ∧ c' `mod` 256 = (0 + 8 * (_health p' - 40)) `mod` 256.
Proof.
  split; [reflexivity|].
  apply (color_follows_counter flat_rgb_wheel flat_wheel 0%nat
           (scenario paced) (init_globals false)
           (Player.__init__ "Player 1" [0xff; 0x00; 0x00] 8) 0).
  - by vm_compute.
  - apply scenario_four_reads.
  - reflexivity.
  - reflexivity.
  - reflexivity.
Defined.

Lemma detent_then_reset_witness :
  ∃ g' p',
    tick flat_rgb_wheel flat_wheel
         (mkReading 1%float 1.5%float [0; 0; 5; 0] [true; true; true; true]
                    [true; true; false; true])
         (init_globals false) = Some g'
    ∧ players g' !! 2%nat = Some p' ∧ _health p' = 40
    ∧ last_positions g' !! 2%nat = Some 5
    ∧ colors g' !! 2%nat
      = Some (if bool_decide (5 > 0) then (0 + 8) `mod` 256
              else (0 - 8) `mod` 256).
Proof.
  apply (detent_then_reset flat_rgb_wheel flat_wheel
           (mkReading 1%float 1.5%float [0; 0; 5; 0] [true; true; true; true]
                      [true; true; false; true])
           (init_globals false) 2%nat 5 0 0
           (Player.__init__ "Player 3" [0xff; 0x00; 0xff] 28)).
  - by vm_compute.
  - by vm_compute.
  - reflexivity.
  - reflexivity.
  - lia.
  - reflexivity.
  - reflexivity.
  - reflexivity.
  - reflexivity.
Defined.
